(** * Crucibia: the gated crossword-contribution form (src/app.py)

    A shallow embedding of the request handlers of [app.py] and of the
    helpers they call, followed by the properties of the handlers.

    Conventions of the embedding.
    - A Python [str] is the list of its Unicode code points ([list N]), so
      [len] is [length] and [==] is equality of lists.
    - [request.form] and the object of a JSON body are finite maps from field
      names to values; a field that was not sent has no entry
      ([form.<field>.data] is then falsy).  A request carries no file part,
      and the values of a JSON body are strings.
    - The session carries the two gates as booleans (an absent key and a
      popped key both read as [false], as [session.get] reads them).
    - The [submissions] table is the list of its rows in rowid order together
      with the AUTOINCREMENT counter.  An id is an integer; [sqlite3] binds
      one to a query only if it fits 64 bits.
    - A handler is a function from the request, the session and the store to
      an [Outcome]: the response, the new session, the new store and the
      messages flashed.
    - [CSRFProtect] and the rate limiter run before a view function is
      entered; the view functions below are the code after those filters.
    - [str.lower] and [bleach.clean] are library code: they are taken through
      the classes [PyStr] and [Bleach], which state the part of their
      behaviour that is relied upon. *)

From stdpp Require Import base strings list gmap sorting.
From Stdlib Require Import NArith ZArith Lia Ascii.

Open Scope N_scope.

(** ** Python strings *)

Abbreviation str := (list N).

(** An ASCII literal of the source as a [str]. *)
Fixpoint lit (s : string) : str :=
  match s with
  | EmptyString => []
  | String a s' => N_of_ascii a :: lit s'
  end.

(** [str.isspace] on one character; it is also what [str.strip()] removes and
    what [\s] matches in a [str] pattern. *)
Definition isspace (c : N) : bool :=
  ((9 <=? c) && (c <=? 13)) || ((28 <=? c) && (c <=? 32))
  || (c =? 133) || (c =? 160) || (c =? 5760)
  || ((8192 <=? c) && (c <=? 8202))
  || (c =? 8232) || (c =? 8233) || (c =? 8239) || (c =? 8287) || (c =? 12288).

Fixpoint lstrip (s : str) : str :=
  match s with
  | [] => []
  | c :: s' => if isspace c then lstrip s' else s
  end.

Definition rstrip (s : str) : str := reverse (lstrip (reverse s)).

(** [s.strip()] *)
Definition strip (s : str) : str := rstrip (lstrip s).

(** ** Character classes *)

Definition ascii_lower (c : N) : bool := (97 <=? c) && (c <=? 122).
Definition ascii_upper (c : N) : bool := (65 <=? c) && (c <=? 90).
Definition ascii_digit (c : N) : bool := (48 <=? c) && (c <=? 57).

(** à á è é ì í ò ó ù ú *)
Definition accented_lower : str := [224; 225; 232; 233; 236; 237; 242; 243; 249; 250].
(** À Á È É Ì Í Ò Ó Ù Ú *)
Definition accented_upper : str := [192; 193; 200; 201; 204; 205; 210; 211; 217; 218].

Definition accented (c : N) : bool :=
  bool_decide (c ∈ accented_lower) || bool_decide (c ∈ accented_upper).

(** A letter of the class [[a-zA-ZàáèéìíòóùúÀÁÈÉÌÍÒÓÙÚ]]. *)
Definition letter (c : N) : bool := ascii_lower c || ascii_upper c || accented c.

(** The whole class of [is_valid_word]: the letters and [\s]. *)
Definition word_char (c : N) : bool := letter c || isspace c.

(** Text that passes through an HTML cleaner untouched: letters, digits and
    the space character U+0020. *)
Definition plain_char (c : N) : bool := letter c || ascii_digit c || (c =? 32).

Definition lt_sign : N := 60.
Definition gt_sign : N := 62.

(** The characters that delimit a tag. *)
Definition tag_delimiter (c : N) : bool := (c =? lt_sign) || (c =? gt_sign).

(** ** Library code *)

(** Lower-casing of one character of the word class: the capitals of Basic
    Latin and the ten accented capitals move down by 32, the rest stays. *)
Definition lower_char (c : N) : N :=
  if ascii_upper c || bool_decide (c ∈ accented_upper) then c + 32 else c.

(** [str.lower].  On the characters [is_valid_word] lets through it is
    [lower_char] character by character; nothing is asked of it elsewhere. *)
Class PyStr := {
  lower : str → str;
  lower_word : ∀ s, forallb word_char s = true → lower s = map lower_char s
}.

(** [bleach.clean(_, tags=[], attributes={}, strip=True)]: every tag is
    dropped and what is left is escaped, so the result holds neither [<]
    nor [>]; text made of letters, digits and spaces comes back as it is. *)
Class Bleach := {
  clean : str → str;
  clean_no_delimiter : ∀ t, existsb tag_delimiter (clean t) = false;
  clean_plain : ∀ t, forallb plain_char t = true → clean t = t
}.

(** A lower-casing that meets [PyStr]: [lower_char] on every character. *)
Definition latin_lower (s : str) : str := map lower_char s.

(** A cleaner that meets [Bleach]: outside a tag, [<] opens a tag, [>] and
    [&] are escaped and any other character is kept; inside a tag everything
    up to and including the closing [>] is dropped. *)
Fixpoint strip_tags (in_tag : bool) (t : str) : str :=
  match t with
  | [] => []
  | c :: t' =>
      if in_tag then
        if c =? gt_sign then strip_tags false t' else strip_tags true t'
      else if c =? lt_sign then strip_tags true t'
      else if c =? gt_sign then lit "&gt;" ++ strip_tags false t'
      else if c =? 38 then lit "&amp;" ++ strip_tags false t'
      else c :: strip_tags false t'
  end.

(** ** Security functions (app.py, lines 77-89) *)

Section Sanitizer.
Context `{!Bleach}.

(** [sanitize_input(text)]; [None] is Python's [None]. *)
Definition sanitize_input (text : option str) : option str :=
  match text with
  | None => None
  | Some [] => Some []
  | Some t => Some (clean (strip t))
  end.
End Sanitizer.

(** The two variables of [os.environ] the application reads. *)
Record Env := {
  FORM_PASSWORD : option str;
  ADMIN_PASSWORD : option str
}.

Definition get_form_password (env : Env) : str :=
  default (lit "bianca") (FORM_PASSWORD env).

Definition get_admin_password (env : Env) : str :=
  default (lit "bianca2024") (ADMIN_PASSWORD env).

(** ** Validation functions (app.py, lines 121-127) *)

(** [re.match(r'^[C]+$', s)] for a character class [C]: a non-empty run of
    class characters from the start, after which [$] must hold, at the end
    of [s] or just before a newline that ends [s]. *)
Definition match_class_plus (C : N → bool) (s : str) : bool :=
  (negb (bool_decide (s = [])) && forallb C s)
  || match reverse s with
     | 10 :: b => negb (bool_decide (b = [])) && forallb C b
     | _ => false
     end.

Definition is_valid_word (word : str) : bool :=
  match_class_plus word_char (strip word).

Definition is_valid_clue (clue : str) : bool :=
  (10 <=? length (strip clue))%nat.

(** ** WTForms validators and the three forms (app.py, lines 56-74) *)

(** [DataRequired]: the data is truthy and, being a string, is not blank. *)
Definition DataRequired (data : option str) : bool :=
  match data with
  | None => false
  | Some s => negb (bool_decide (s = [])) && negb (bool_decide (strip s = []))
  end.

(** [Length(min, max)]: [len(data)], or 0 for falsy data, lies in the range. *)
Definition Length (min max : nat) (data : option str) : bool :=
  let n := match data with Some s => length s | None => 0%nat end in
  (min <=? n)%nat && (n <=? max)%nat.

(** The messages the handlers flash, named after their text. *)
Inductive Message :=
  | LaParolaEObbligatoria          (* La parola è obbligatoria *)
  | LaParolaTra1E50                (* La parola deve essere tra 1 e 50 caratteri *)
  | LaFraseIndizioEObbligatoria    (* La frase indizio è obbligatoria *)
  | LaFraseIndizioTra10E200        (* La frase indizio deve essere tra 10 e 200 caratteri *)
  | IlNomeEObbligatorio            (* Il nome è obbligatorio *)
  | IlNomeTra1E50                  (* Il nome deve essere tra 1 e 50 caratteri *)
  | PasswordErrataChiedi           (* Password errata. Chiedi la password agli organizzatori! *)
  | PasswordErrata                 (* Password errata *)
  | SoloLettereESpazi              (* La parola può contenere solo lettere e spazi *)
  | AlmenoDieciCaratteri           (* La frase indizio deve essere di almeno 10 caratteri *)
  | GiaRegistrato                  (* Questo contributo è già stato registrato *)
  | GrazieRegistrato               (* Grazie! Il tuo contributo è stato registrato. *)
  | ContributoNonTrovato           (* Contributo non trovato *)
  | ContributoEliminato            (* Contributo eliminato *)
  | ErroreEliminazione             (* Errore durante l'eliminazione *)
  | SeiStatoDisconnesso.           (* Sei stato disconnesso *)

Inductive Category := error | success.

#[global] Instance Message_eq_dec : EqDecision Message.
Proof. solve_decision. Defined.
#[global] Instance Category_eq_dec : EqDecision Category.
Proof. solve_decision. Defined.

(** The errors of one field: its validators run in order, and a failing
    [DataRequired] stops the chain. *)
Definition field_errors (required too_long : Message) (min max : nat)
    (data : option str) : list Message :=
  if negb (DataRequired data) then [required]
  else if negb (Length min max data) then [too_long]
  else [].

Abbreviation Form := (gmap string str).

(** [ContributionForm().errors], field by field in the order of declaration;
    [validate_on_submit()] holds when the three lists are empty. *)
Definition contribution_errors (form : Form) : list Message :=
  field_errors LaParolaEObbligatoria LaParolaTra1E50 1 50 (form !! "parola")
  ++ field_errors LaFraseIndizioEObbligatoria LaFraseIndizioTra10E200 10 200
       (form !! "frase_indizio")
  ++ field_errors IlNomeEObbligatorio IlNomeTra1E50 1 50 (form !! "nome").

(** ** The submissions table (app.py, lines 97-118) *)

Module Row.
(** One row of [submissions]; [nome] is the only nullable column. *)
Record t := mk {
  id : Z;
  parola : str;
  frase_indizio : str;
  nome : option str;
  timestamp : str
}.
End Row.

(** The table in rowid order, and [seq], the largest id AUTOINCREMENT has
    handed out. *)
Record Store := {
  rows : list Row.t;
  seq : Z
}.

(** The table [init_db] creates. *)
Definition init_db : Store := {| rows := []; seq := 0 |}.

Definition max_rowid (l : list Row.t) : Z :=
  foldr (λ r m, Z.max (Row.id r) m) 0%Z l.

(** [INSERT INTO submissions (parola, frase_indizio, nome) VALUES (?, ?, ?)]
    at the time [now]: the id is one more than every id the table has held. *)
Definition insert (p f : str) (n : option str) (now : str) (st : Store) : Store :=
  let i := (Z.max (seq st) (max_rowid (rows st)) + 1)%Z in
  {| rows := rows st ++ [Row.mk i p f n now]; seq := i |}.

(** [SELECT * FROM submissions WHERE parola = ? AND frase_indizio = ?],
    [fetchone()]. *)
Definition select_by_parola_frase (p f : str) (st : Store) : option Row.t :=
  List.find (λ r, bool_decide (Row.parola r = p ∧ Row.frase_indizio r = f)) (rows st).

(** The largest INTEGER of SQLite, and the largest [int] that [execute]
    binds to a [?]: 2^63 - 1.  A larger one raises [OverflowError]. *)
Definition sqlite_max_integer : Z := 9223372036854775807.

(** [SELECT id FROM submissions WHERE id = ?], [fetchone()], for an id that
    [execute] can bind. *)
Definition select_by_id (i : Z) (st : Store) : option Row.t :=
  List.find (λ r, bool_decide (Row.id r = i)) (rows st).

(** [DELETE FROM submissions WHERE id = ?] *)
Definition delete_by_id (i : Z) (st : Store) : Store :=
  {| rows := filter (λ r, Row.id r ≠ i) (rows st); seq := seq st |}.

(** The order of TEXT values: code point by code point. *)
Fixpoint str_ltb (a b : str) : bool :=
  match a, b with
  | _, [] => false
  | [], _ :: _ => true
  | x :: a', y :: b' => (x <? y) || ((x =? y) && str_ltb a' b')
  end.

Fixpoint insert_desc (r : Row.t) (l : list Row.t) : list Row.t :=
  match l with
  | [] => [r]
  | r' :: l' =>
      if str_ltb (Row.timestamp r) (Row.timestamp r') then r' :: insert_desc r l'
      else r :: l
  end.

(** [ORDER BY timestamp DESC]; rows of one timestamp stay in rowid order
    (SQL leaves their order open). *)
Definition order_by_timestamp_desc (l : list Row.t) : list Row.t :=
  foldr insert_desc [] l.

(** ** Requests, sessions and responses *)

Inductive Method := GET | POST.

(** [request.method], [request.form] and, for a request whose content type
    is JSON, the object [request.get_json()] returns. *)
Record Request := {
  method : Method;
  form : Form;
  json : option Form
}.

(** The data a [FlaskForm] built without arguments binds in a POST
    (Flask-WTF, [wrap_formdata]): [request.form] if it holds a field, else
    the JSON body if the request has one, else nothing. *)
Definition formdata (req : Request) : Form :=
  if bool_decide (form req = ∅) then default ∅ (json req) else form req.

(** [session]: the two gates and [session.permanent]. *)
Record Session := {
  form_access : bool;
  admin_logged_in : bool;
  permanent : bool
}.

(** [url_for('index')] and [url_for('admin')]. *)
Inductive Endpoint := index_url | admin_url.

(** The templates with the keyword arguments they get beside the form. *)
Inductive Template :=
  | form_login_html
  | index_html
  | success_html (nome : option str)
  | admin_login_html
  | admin_html (submissions : list Row.t).

(** What a view function returns or raises.  [csv_attachment] carries the
    rows handed to [csv.writer]. *)
Inductive Response :=
  | render_template (t : Template)
  | redirect (target : Endpoint)
  | abort (status : Z)
  | csv_attachment (output : list (list str))
  | unhandled_exception.

Definition status_code (r : Response) : Z :=
  match r with
  | render_template _ => 200
  | redirect _ => 302
  | abort status => status
  | csv_attachment _ => 200
  | unhandled_exception => 500
  end.

Record Outcome := Out {
  response : Response;
  session : Session;
  store : Store;
  flashed : list (Message * Category)
}.

(** [session['form_access'] = True; session.permanent = True] *)
Definition grant_form_access (s : Session) : Session :=
  {| form_access := true; admin_logged_in := admin_logged_in s; permanent := true |}.

(** [session['admin_logged_in'] = True; session.permanent = True] *)
Definition grant_admin (s : Session) : Session :=
  {| form_access := form_access s; admin_logged_in := true; permanent := true |}.

(** [submission['nome'] or 'Anonimo'] *)
Definition nome_or_anonimo (n : option str) : str :=
  match n with
  | None | Some [] => lit "Anonimo"
  | Some s => s
  end.

(** One line of the export. *)
Definition csv_row (r : Row.t) : list str :=
  [Row.parola r; Row.frase_indizio r; nome_or_anonimo (Row.nome r); Row.timestamp r].

Definition csv_header : list str :=
  [lit "Parola"; lit "Frase Indizio"; lit "Nome"; lit "Data"].

(** ** Routes (app.py, lines 163-348) *)

Section Routes.
Context `{!PyStr, !Bleach}.
Variable env : Env.

(** The end of [index], reached by a GET and by a POST whose form failed
    validation. *)
Definition index_page (s : Session) : Response :=
  if negb (form_access s) then render_template form_login_html
  else render_template index_html.

(** [index()] for the route [/]; [now] is the store's clock. *)
Definition index (now : str) (req : Request) (s : Session) (st : Store) : Outcome :=
  match method req with
  | GET => Out (index_page s) s st []
  | POST =>
      if bool_decide (is_Some (form req !! "access_password")) then
        (* LoginForm *)
        let data := formdata req !! "access_password" in
        if DataRequired data then
          let password := sanitize_input data in
          if bool_decide (password = Some (get_form_password env)) then
            Out (redirect index_url) (grant_form_access s) st []
          else
            Out (render_template form_login_html) s st [(PasswordErrataChiedi, error)]
        else Out (render_template form_login_html) s st []
      else if negb (form_access s) then Out (redirect index_url) s st []
      else
        (* ContributionForm *)
        match contribution_errors (formdata req) with
        | [] =>
            let parola := sanitize_input (formdata req !! "parola") in
            let frase_indizio := sanitize_input (formdata req !! "frase_indizio") in
            let nome := sanitize_input (formdata req !! "nome") in
            match parola, frase_indizio with
            | Some parola, Some frase_indizio =>
                if negb (is_valid_word parola) then
                  Out (render_template index_html) s st [(SoloLettereESpazi, error)]
                else if negb (is_valid_clue frase_indizio) then
                  Out (render_template index_html) s st [(AlmenoDieciCaratteri, error)]
                else
                  match select_by_parola_frase (lower parola) frase_indizio st with
                  | Some _ =>
                      Out (render_template index_html) s st [(GiaRegistrato, error)]
                  | None =>
                      Out (render_template (success_html nome)) s
                          (insert (lower parola) frase_indizio nome now st)
                          [(GrazieRegistrato, success)]
                  end
            | _, _ =>
                (* [None.strip()] would raise; validated data is never None *)
                Out unhandled_exception s st []
            end
        | errors => Out (index_page s) s st (map (λ e, (e, error)) errors)
        end
  end.

(** [admin()] for the route [/admin]. *)
Definition admin (req : Request) (s : Session) (st : Store) : Outcome :=
  match method req with
  | POST =>
      (* AdminLoginForm *)
      let data := formdata req !! "password" in
      if DataRequired data then
        let password := sanitize_input data in
        if bool_decide (password = Some (get_admin_password env)) then
          Out (redirect admin_url) (grant_admin s) st []
        else Out (render_template admin_login_html) s st [(PasswordErrata, error)]
      else Out (render_template admin_login_html) s st []
  | GET =>
      if negb (admin_logged_in s) then Out (render_template admin_login_html) s st []
      else Out (render_template (admin_html (order_by_timestamp_desc (rows st)))) s st []
  end.

(** [export_csv()] for the route [/admin/export]. *)
Definition export_csv (s : Session) (st : Store) : Outcome :=
  if negb (admin_logged_in s) then Out (abort 403) s st []
  else
    Out (csv_attachment (csv_header :: map csv_row (order_by_timestamp_desc (rows st))))
        s st [].

(** [delete_submission(submission_id)] for the route
    [/admin/delete/<int:submission_id>]. *)
Definition delete_submission (submission_id : Z) (s : Session) (st : Store) : Outcome :=
  if negb (admin_logged_in s) then Out (abort 403) s st []
  else if (submission_id <=? 0)%Z then
    (* [abort(400)] is raised inside the [try]: the [except Exception]
       clause catches it, flashes and falls through to the redirect *)
    Out (redirect admin_url) s st [(ErroreEliminazione, error)]
  else if (sqlite_max_integer <? submission_id)%Z then
    (* [execute] cannot bind the id to the [?] of the SELECT: the
       [OverflowError] it raises is caught by the same clause *)
    Out (redirect admin_url) s st [(ErroreEliminazione, error)]
  else
    match select_by_id submission_id st with
    | None => Out (redirect admin_url) s st [(ContributoNonTrovato, error)]
    | Some _ =>
        Out (redirect admin_url) s (delete_by_id submission_id st)
            [(ContributoEliminato, success)]
    end.

(** [admin_logout()] for the route [/admin/logout]. *)
Definition admin_logout (s : Session) (st : Store) : Outcome :=
  Out (redirect index_url)
      {| form_access := form_access s; admin_logged_in := false; permanent := permanent s |}
      st [].

(** [form_logout()] for the route [/logout]. *)
Definition form_logout (s : Session) (st : Store) : Outcome :=
  Out (redirect index_url)
      {| form_access := false; admin_logged_in := admin_logged_in s; permanent := permanent s |}
      st [(SeiStatoDisconnesso, success)].

(** One request to the application: the route with its arguments. *)
Inductive Call :=
  | call_index (now : str) (req : Request)
  | call_admin (req : Request)
  | call_export_csv
  | call_delete_submission (submission_id : Z)
  | call_admin_logout
  | call_form_logout.

Definition handle (c : Call) (s : Session) (st : Store) : Outcome :=
  match c with
  | call_index now req => index now req s st
  | call_admin req => admin req s st
  | call_export_csv => export_csv s st
  | call_delete_submission i => delete_submission i s st
  | call_admin_logout => admin_logout s st
  | call_form_logout => form_logout s st
  end.

(** The store after a sequence of requests, each made with a session of
    its own choosing. *)
Fixpoint run (cs : list (Call * Session)) (st : Store) : Store :=
  match cs with
  | [] => st
  | (c, s) :: cs' => run cs' (store (handle c s st))
  end.
End Routes.

(** * The vocabulary of the properties *)

(** The reading of "a Latin letter or a space" character by character. *)
Definition letter_or_space (c : N) : bool := letter c || (c =? 32).

(** A row with the pair [(p, f)] is in the table. *)
Definition stored (p f : str) (st : Store) : Prop :=
  ∃ r, r ∈ rows st ∧ Row.parola r = p ∧ Row.frase_indizio r = f.

(** The pair a row is looked up by. *)
Definition pair_of (r : Row.t) : str * str := (Row.parola r, Row.frase_indizio r).

(** No two rows share a (word, clue) pair. *)
Definition no_duplicate_pairs (st : Store) : Prop := NoDup (pair_of <$> rows st).

(** No two rows share an id. *)
Definition unique_ids (st : Store) : Prop := NoDup (Row.id <$> rows st).

(** Every row has a positive id. *)
Definition positive_ids (st : Store) : Prop := Forall (λ r, (0 < Row.id r)%Z) (rows st).

(** Every id is one SQLite can hold, as the ids of a table of SQLite are. *)
Definition storable_ids (st : Store) : Prop :=
  Forall (λ r, (Row.id r ≤ sqlite_max_integer)%Z) (rows st).


Section Vocabulary.
Context `{!PyStr, !Bleach}.

(** A posted (word, clue, name) triple passes the length and
    character-class constraints: the validators of [ContributionForm]
    find no error, and the sanitized word and clue pass [is_valid_word]
    and [is_valid_clue]. *)
Definition passes_constraints (fields : Form) : bool :=
  bool_decide (contribution_errors fields = [])
  && match sanitize_input (fields !! "parola"), sanitize_input (fields !! "frase_indizio") with
     | Some parola, Some frase_indizio => is_valid_word parola && is_valid_clue frase_indizio
     | _, _ => false
     end.

(** The pair the duplicate guard speaks of: the lower-cased word and the
    clue as it is. *)
Definition lowercased_pair (r : Row.t) : str * str :=
  (lower (Row.parola r), Row.frase_indizio r).

(** Every stored word is its own lower-casing. *)
Definition stored_lowercase (st : Store) : Prop :=
  Forall (λ r, lower (Row.parola r) = Row.parola r) (rows st).

(** What the requests maintain: no two rows with one stored pair, and
    words stored lower-cased. *)
Definition store_invariant (st : Store) : Prop :=
  no_duplicate_pairs st ∧ stored_lowercase st.
End Vocabulary.

(** ** A worked scenario *)

(** No variable set: the secrets are ["bianca"] and ["bianca2024"]. *)
Definition no_env : Env := {| FORM_PASSWORD := None; ADMIN_PASSWORD := None |}.

(** A visitor who holds the contributor gate only. *)
Definition contributor : Session :=
  {| form_access := true; admin_logged_in := false; permanent := true |}.

Definition clue_gioia : str := lit "Sentimento che trasmette sempre gioia".

(** The contribution of the example: GIOIA, its clue, Mario Rossi. *)
Definition gioia : Form :=
  <["parola" := lit "GIOIA"]>
    (<["frase_indizio" := clue_gioia]> (<["nome" := lit "Mario Rossi"]> ∅)).

(** A POST with a form-encoded body, and a POST with a JSON body. *)
Definition post (fields : Form) : Request :=
  {| method := POST; form := fields; json := None |}.

Definition post_json (body : Form) : Request :=
  {| method := POST; form := ∅; json := Some body |}.

(** Case analysis on membership in a list written out. *)
Ltac enumerate H :=
  repeat (apply elem_of_cons in H as [H|H]); [..|by apply elem_of_nil in H].

(** ** The vocabulary of the further properties *)

(** Neither [<] nor [>] in the text. *)
Definition tag_free (t : str) : bool := negb (existsb tag_delimiter t).

(** What [index] lets into the table: a word [is_valid_word] accepts, a
    clue [is_valid_clue] accepts and a name that is not null, none of them
    holding a tag delimiter. *)
Definition row_checked (r : Row.t) : Prop :=
  is_valid_word (Row.parola r) = true
  ∧ is_valid_clue (Row.frase_indizio r) = true
  ∧ tag_free (Row.parola r) = true
  ∧ tag_free (Row.frase_indizio r) = true
  ∧ ∃ n, Row.nome r = Some n ∧ tag_free n = true.

(** No row is older than a row listed after it. *)
Definition newest_first (l : list Row.t) : Prop :=
  StronglySorted (λ r1 r2, str_ltb (Row.timestamp r1) (Row.timestamp r2) = false) l.

(** Ids grow along the table, are positive and none is beyond the counter. *)
Definition ids_increasing (st : Store) : Prop :=
  StronglySorted (λ r1 r2, (Row.id r1 < Row.id r2)%Z) (rows st)
  ∧ Forall (λ r, (0 < Row.id r ≤ seq st)%Z) (rows st).

(** * Properties *)

(** ** The library classes are inhabited *)

Lemma latin_lower_word (s : str) :
  forallb word_char s = true → latin_lower s = map lower_char s.
Proof. reflexivity. Qed.

Definition latin_pystr : PyStr :=
  {| lower := latin_lower; lower_word := latin_lower_word |}.

Lemma plain_char_not_markup (c : N) :
  plain_char c = true → (c =? lt_sign) = false ∧ (c =? gt_sign) = false ∧ (c =? 38) = false.
Proof.
  intros Hc. repeat split; apply N.eqb_neq; intros ->; vm_compute in Hc; discriminate.
Qed.

Lemma strip_tags_no_delimiter (b : bool) (t : str) :
  existsb tag_delimiter (strip_tags b t) = false.
Proof.
  revert b. induction t as [|c t IH]; intros b; [reflexivity|].
  cbn [strip_tags]. destruct b.
  - destruct (c =? gt_sign); apply IH.
  - destruct (c =? lt_sign) eqn:Hlt; [apply IH|].
    destruct (c =? gt_sign) eqn:Hgt.
    { rewrite existsb_app, IH. reflexivity. }
    destruct (c =? 38).
    { rewrite existsb_app, IH. reflexivity. }
    cbn [existsb]. rewrite IH. unfold tag_delimiter. rewrite Hlt, Hgt. reflexivity.
Qed.

Lemma strip_tags_plain (t : str) :
  forallb plain_char t = true → strip_tags false t = t.
Proof.
  induction t as [|c t IH]; [reflexivity|].
  cbn [forallb strip_tags]. intros [Hc Ht]%andb_prop.
  destruct (plain_char_not_markup c Hc) as (-> & -> & ->).
  f_equal. apply IH, Ht.
Qed.

Definition tag_stripper : Bleach :=
  {| clean := strip_tags false;
     clean_no_delimiter := strip_tags_no_delimiter false;
     clean_plain := strip_tags_plain |}.

(** ** [strip] *)

Lemma forallb_reverse {A : Type} (f : A → bool) (l : list A) :
  forallb f (reverse l) = forallb f l.
Proof.
  induction l as [|x l IH]; [reflexivity|].
  rewrite reverse_cons, forallb_app, IH. cbn [forallb].
  rewrite andb_true_r. apply andb_comm.
Qed.

Lemma lstrip_suffix (s : str) :
  ∃ pre, s = pre ++ lstrip s ∧ forallb isspace pre = true.
Proof.
  induction s as [|c s (pre & Hs & Hpre)]; [by exists []|].
  cbn [lstrip]. destruct (isspace c) eqn:Hc.
  - exists (c :: pre). cbn [forallb]. rewrite Hc, Hpre. split; [|done].
    cbn. by rewrite <- Hs.
  - by exists [].
Qed.

Lemma lstrip_head (s : str) (c : N) (s' : str) :
  lstrip s = c :: s' → isspace c = false.
Proof.
  induction s as [|d s IH]; [done|].
  cbn [lstrip]. destruct (isspace d) eqn:Hd; [done|].
  by intros [= <- _].
Qed.

Lemma lstrip_elem (s : str) (c : N) :
  c ∈ s → isspace c = false → c ∈ lstrip s.
Proof.
  intros Hin Hc. induction s as [|d s IH]; [done|].
  cbn [lstrip]. destruct (isspace d) eqn:Hd; [|done].
  apply elem_of_cons in Hin as [->|Hin]; [congruence|by apply IH].
Qed.

Lemma strip_elem (s : str) (c : N) :
  c ∈ s → isspace c = false → c ∈ strip s.
Proof.
  intros Hin Hc. unfold strip, rstrip.
  apply elem_of_reverse, lstrip_elem; [|done].
  by apply elem_of_reverse, lstrip_elem.
Qed.

(** [strip] cuts white space off both ends and nothing else: what is left
    neither starts nor ends with white space. *)
Lemma strip_spec (s : str) :
  ∃ pre post, s = pre ++ strip s ++ post
    ∧ forallb isspace pre = true ∧ forallb isspace post = true
    ∧ (∀ c s', strip s = c :: s' → isspace c = false)
    ∧ (∀ c s', strip s = s' ++ [c] → isspace c = false).
Proof.
  destruct (lstrip_suffix s) as (pre & Hs & Hpre).
  destruct (lstrip_suffix (reverse (lstrip s))) as (tsop & Hr & Hpost).
  exists pre, (reverse tsop). unfold strip, rstrip.
  assert (Hmid : lstrip s = reverse (lstrip (reverse (lstrip s))) ++ reverse tsop).
  { rewrite <- reverse_app, <- Hr. by rewrite reverse_involutive. }
  assert (Hpost' : forallb isspace (reverse tsop) = true).
  { by rewrite forallb_reverse. }
  repeat split; [by rewrite <- Hmid | done | done | |].
  - intros c s' Hhead. rewrite Hhead in Hmid.
    by apply (lstrip_head s c (s' ++ reverse tsop)).
  - intros c s' Hlast.
    apply (lstrip_head (reverse (lstrip s)) c (reverse s')).
    rewrite <- (reverse_involutive (lstrip (reverse (lstrip s)))), Hlast.
    by rewrite reverse_snoc.
Qed.

(** ** The word validator *)

(** With a class that holds the newline, the [$] of the pattern adds
    nothing: the match is a non-empty string of class characters. *)
Lemma match_class_plus_newline (C : N → bool) (s : str) :
  C 10 = true →
  match_class_plus C s = negb (bool_decide (s = [])) && forallb C s.
Proof.
  intros HC. unfold match_class_plus.
  destruct (negb (bool_decide (s = [])) && forallb C s) eqn:Hall; [reflexivity|].
  cbn [orb]. destruct (reverse s) as [|c b] eqn:Hrev; [reflexivity|].
  assert (Hs : s = reverse b ++ [c]).
  { by rewrite <- reverse_cons, <- Hrev, reverse_involutive. }
  destruct (decide (c = 10)) as [->|Hc].
  - destruct (forallb C b) eqn:Hb; [|by rewrite andb_false_r].
    exfalso. rewrite Hs, forallb_app, forallb_reverse, Hb in Hall.
    cbn [forallb] in Hall. rewrite HC in Hall.
    rewrite bool_decide_eq_false_2 in Hall; [discriminate|].
    by destruct (reverse b).
  - destruct c as [|p]; [reflexivity|].
    do 4 (destruct p as [p|p|]; try reflexivity). congruence.
Qed.

Lemma is_valid_word_forallb (word : str) :
  is_valid_word word = negb (bool_decide (strip word = [])) && forallb word_char (strip word).
Proof. unfold is_valid_word. by apply match_class_plus_newline. Qed.

(** C6, as stated, fails both ways.  ["a\tb"] is accepted although the tab is
    neither a letter nor a space; [" "] is not empty and, trimmed, has no
    character that is not a letter or a space, yet it is rejected. *)
Lemma is_valid_word_tab_and_blank :
  is_valid_word [97; 9; 98] = true
  ∧ forallb letter_or_space (strip [97; 9; 98]) = false
  ∧ is_valid_word [32] = false
  ∧ forallb letter_or_space (strip [32]) = true.
Proof. repeat split. Qed.

(** C6, amended.  [is_valid_word] accepts a string exactly when, trimmed, it
    is not empty and each of its characters is a letter of
    [a-zA-ZàáèéìíòóùúÀÁÈÉÌÍÒÓÙÚ] or a white-space character ([\s]: the space,
    but also the tab, the newline and the like); so a string holding a
    character that is neither, a digit or a punctuation mark for one, is
    rejected.  ["Hello123"] and ["Hello!"] are rejected, ["Hello World"] and
    ["città"] are accepted. *)
Theorem is_valid_word_accepts (word : str) :
  (is_valid_word word = true ↔
     strip word ≠ [] ∧ Forall (λ c, letter c = true ∨ isspace c = true) (strip word))
  ∧ (∀ c, c ∈ word → letter c = false → isspace c = false → is_valid_word word = false)
  ∧ is_valid_word (lit "Hello123") = false
  ∧ is_valid_word (lit "Hello!") = false
  ∧ is_valid_word (lit "Hello World") = true
  ∧ is_valid_word (lit "citt" ++ [224]) = true.
Proof.
  assert (Hiff : is_valid_word word = true ↔
    strip word ≠ [] ∧ Forall (λ c, letter c = true ∨ isspace c = true) (strip word)).
  { rewrite is_valid_word_forallb, andb_true_iff, negb_true_iff, bool_decide_eq_false.
    apply and_iff_compat_l. rewrite Forall_forall, forallb_forall.
    split; intros Hall c Hin.
    - apply list_elem_of_In, Hall, orb_prop in Hin. done.
    - apply list_elem_of_In, Hall in Hin. unfold word_char. by apply orb_true_iff. }
  split; [exact Hiff|]. split; [|by repeat split].
  intros c Hin Hletter Hspace. apply not_true_is_false. intros [_ Hall]%Hiff.
  rewrite Forall_forall in Hall.
  destruct (Hall c (strip_elem _ _ Hin Hspace)); congruence.
Qed.

(** The digit of ["Hello123"] has it rejected. *)
Lemma is_valid_word_accepts_witness :
  is_valid_word (lit "Hello123") = false.
Proof.
  apply (proj1 (proj2 (is_valid_word_accepts (lit "Hello123"))) 49).
  - by apply (bool_decide_unpack _).
  - reflexivity.
  - reflexivity.
Defined.

(** ** Lower-casing of valid words *)

(** A capital of the class moves to a letter that is no capital. *)
Lemma lower_char_upper (c : N) :
  ascii_upper c || bool_decide (c ∈ accented_upper) = true →
  letter (c + 32) = true
  ∧ ascii_upper (c + 32) || bool_decide (c + 32 ∈ accented_upper) = false.
Proof.
  intros [Hup|Hin%bool_decide_eq_true]%orb_prop.
  - unfold ascii_upper in Hup. apply andb_prop in Hup as [Hlo%N.leb_le Hhi%N.leb_le].
    split.
    + unfold letter, ascii_lower.
      rewrite (proj2 (N.leb_le 97 (c + 32))), (proj2 (N.leb_le (c + 32) 122)) by lia. done.
    + apply orb_false_iff. split.
      * unfold ascii_upper. apply andb_false_iff. right. apply N.leb_gt. lia.
      * apply bool_decide_eq_false. intros Hin. unfold accented_upper in Hin.
        enumerate Hin; lia.
  - unfold accented_upper in Hin. enumerate Hin; subst c; by vm_compute.
Qed.

Lemma lower_char_idempotent (c : N) : lower_char (lower_char c) = lower_char c.
Proof.
  destruct (ascii_upper c || bool_decide (c ∈ accented_upper)) eqn:Hup.
  - unfold lower_char. rewrite Hup. by rewrite (proj2 (lower_char_upper c Hup)).
  - unfold lower_char. by rewrite !Hup.
Qed.

Lemma lower_char_word (c : N) : word_char c = true → word_char (lower_char c) = true.
Proof.
  intros Hc. unfold lower_char.
  destruct (ascii_upper c || bool_decide (c ∈ accented_upper)) eqn:Hup; [|done].
  unfold word_char. by rewrite (proj1 (lower_char_upper c Hup)).
Qed.

Lemma isspace_word_chars (l : str) :
  forallb isspace l = true → forallb word_char l = true.
Proof.
  induction l as [|c l IH]; [done|]. cbn [forallb].
  intros [Hc Hl]%andb_prop. unfold word_char at 1. rewrite Hc, orb_true_r. by apply IH.
Qed.

(** A word [is_valid_word] accepts holds class characters only, the white
    space [strip] sets aside included. *)
Lemma is_valid_word_chars (word : str) :
  is_valid_word word = true → forallb word_char word = true.
Proof.
  rewrite is_valid_word_forallb. intros [_ Hmid]%andb_prop.
  destruct (strip_spec word) as (pre & post & Hw & Hpre & Hpost & _).
  rewrite Hw, !forallb_app, Hmid.
  by rewrite (isspace_word_chars pre), (isspace_word_chars post).
Qed.

Lemma map_lower_char_word (l : str) :
  forallb word_char l = true → forallb word_char (map lower_char l) = true.
Proof.
  induction l as [|c l IH]; [done|]. cbn [forallb map].
  intros [Hc Hl]%andb_prop. by rewrite lower_char_word, IH.
Qed.

(** On a valid word [lower] is [lower_char] throughout, and lower-casing
    the result again changes nothing. *)
Lemma lower_valid_word `{!PyStr} (word : str) :
  is_valid_word word = true →
  lower word = map lower_char word ∧ lower (lower word) = lower word.
Proof.
  intros Hchars%is_valid_word_chars.
  assert (Hlow : lower word = map lower_char word) by by apply lower_word.
  split; [done|]. rewrite Hlow, lower_word by by apply map_lower_char_word.
  rewrite map_map. apply map_ext. intros c. apply lower_char_idempotent.
Qed.

(** ** The sanitizer *)

Section SanitizerProperties.
Context `{!Bleach}.

Lemma sanitize_input_clean (t : str) :
  sanitize_input (Some t) = Some (clean (strip t)).
Proof.
  destruct t as [|c t]; [|reflexivity].
  cbn. by rewrite clean_plain.
Qed.

Lemma sanitize_input_plain (t : str) :
  forallb plain_char (strip t) = true → sanitize_input (Some t) = Some (strip t).
Proof. intros Hplain. by rewrite sanitize_input_clean, clean_plain. Qed.

End SanitizerProperties.

(** ** The admin gate *)

(** C7.  Without the admin gate, [/admin/export] and [/admin/delete/<id>]
    answer 403, a client error and not a redirect; the session and the
    store stay as they were. *)
Theorem admin_routes_refuse_without_gate (s : Session) (st : Store) (submission_id : Z) :
  admin_logged_in s = false →
  export_csv s st = Out (abort 403) s st []
  ∧ delete_submission submission_id s st = Out (abort 403) s st []
  ∧ (400 ≤ status_code (abort 403) < 500)%Z
  ∧ (∀ target, abort 403 ≠ redirect target).
Proof.
  intros Hgate. unfold export_csv, delete_submission. rewrite Hgate.
  repeat split; done.
Qed.

(** A contributor without the admin flag is refused on both routes. *)
Lemma admin_routes_refuse_without_gate_witness :
  let s := {| form_access := true; admin_logged_in := false; permanent := true |} in
  export_csv s init_db = Out (abort 403) s init_db []
  ∧ delete_submission 1 s init_db = Out (abort 403) s init_db [].
Proof.
  intros s.
  destruct (admin_routes_refuse_without_gate s init_db 1 eq_refl) as (He & Hd & _).
  split; [exact He | exact Hd].
Defined.

(** ** The store *)

Lemma select_by_id_Some (i : Z) (st : Store) :
  (∃ r, r ∈ rows st ∧ Row.id r = i) → ∃ r, select_by_id i st = Some r.
Proof.
  intros (r & Hin & Hid). unfold select_by_id.
  destruct (List.find _ (rows st)) as [r'|] eqn:Hfind; [by exists r'|].
  apply list_elem_of_In in Hin.
  apply (find_none _ _ Hfind) in Hin. by apply bool_decide_eq_false in Hin.
Qed.

Lemma select_by_id_None (i : Z) (st : Store) :
  (∀ r, r ∈ rows st → Row.id r ≠ i) → select_by_id i st = None.
Proof.
  intros Hnone. unfold select_by_id.
  destruct (List.find _ (rows st)) as [r|] eqn:Hfind; [|done].
  apply find_some in Hfind as [Hin Hid].
  apply list_elem_of_In, Hnone in Hin. by apply bool_decide_eq_true in Hid.
Qed.

Lemma filter_id_absent (i : Z) (l : list Row.t) :
  i ∉ Row.id <$> l → filter (λ r, Row.id r ≠ i) l = l.
Proof.
  induction l as [|r l IH]; [done|].
  rewrite fmap_cons, not_elem_of_cons. intros [Hne Hnin].
  rewrite filter_cons_True by done. by rewrite IH.
Qed.

(** With one row per id, deleting an id that is there shortens the table by
    one row. *)
Lemma length_filter_id (i : Z) (l : list Row.t) :
  NoDup (Row.id <$> l) → i ∈ Row.id <$> l →
  S (length (filter (λ r, Row.id r ≠ i) l)) = length l.
Proof.
  induction l as [|r l IH]; [by intros _ ?%elem_of_nil|].
  rewrite fmap_cons, NoDup_cons, elem_of_cons. intros [Hnin Hnd] Hin.
  destruct (decide (Row.id r = i)) as [Heq|Hne].
  - rewrite filter_cons_False by (by intros ?).
    rewrite filter_id_absent by congruence. done.
  - rewrite filter_cons_True by done. cbn [length]. f_equal.
    apply IH; [done|]. destruct Hin as [Heq|Hin]; [congruence|done].
Qed.

(** C8, as stated, fails for a positive id that does not fit 64 bits.  No
    row of the table has the id 2^63, and an admin who deletes it is not told
    that the contribution was not found: the lookup itself fails, and what
    is flashed is "Errore durante l'eliminazione". *)
Lemma unknown_id_beyond_int64 :
  (0 < 2 ^ 63)%Z
  ∧ select_by_id (2 ^ 63)
      {| rows := [Row.mk 1 (lit "gioia") (lit "Sentimento") (Some (lit "Mario")) (lit "2024")];
         seq := 1 |} = None
  ∧ flashed (delete_submission (2 ^ 63)
               {| form_access := false; admin_logged_in := true; permanent := true |}
               {| rows := [Row.mk 1 (lit "gioia") (lit "Sentimento") (Some (lit "Mario"))
                             (lit "2024")];
                  seq := 1 |})
    = [(ErroreEliminazione, error)]
  ∧ ErroreEliminazione ≠ ContributoNonTrovato.
Proof. by split_and!. Qed.

(** C8, amended.  With the admin gate set, [delete_submission] looks the id
    up first.  If a row has the id (ids being positive and within the range
    of an INTEGER, as they are in every table of SQLite), the rows with that
    id go and every other row stays as it was, in place: one row less, ids
    being unique.  If the id is positive and no row has it, the store is
    left as it was and the answer is the redirect to the admin page with one
    message flashed, not an error status: "Contributo non trovato" for an id
    that fits 64 bits, "Errore durante l'eliminazione" for a larger one. *)
Theorem delete_submission_existing_or_not
    (submission_id : Z) (s : Session) (st : Store) :
  admin_logged_in s = true →
  let o := delete_submission submission_id s st in
  ((∃ r, r ∈ rows st ∧ Row.id r = submission_id) → positive_ids st → storable_ids st →
     response o = redirect admin_url ∧ session o = s
     ∧ flashed o = [(ContributoEliminato, success)]
     ∧ rows (store o) = filter (λ r, Row.id r ≠ submission_id) (rows st)
     ∧ (∀ r, r ∈ rows (store o) ↔ r ∈ rows st ∧ Row.id r ≠ submission_id)
     ∧ seq (store o) = seq st
     ∧ (unique_ids st → S (length (rows (store o))) = length (rows st)))
  ∧ ((0 < submission_id)%Z → (∀ r, r ∈ rows st → Row.id r ≠ submission_id) →
     response o = redirect admin_url ∧ status_code (response o) = 302%Z
     ∧ session o = s
     ∧ store o = st
     ∧ flashed o =
         [(if (submission_id <=? sqlite_max_integer)%Z then ContributoNonTrovato
           else ErroreEliminazione, error)]).
Proof.
  intros Hgate. unfold delete_submission. rewrite Hgate. cbn [negb].
  split.
  - intros Hin Hpos Hfit.
    assert (Hid : (0 < submission_id ≤ sqlite_max_integer)%Z).
    { destruct Hin as (r & Hr & <-). unfold positive_ids, storable_ids in *.
      rewrite Forall_forall in Hpos, Hfit. split; [by apply Hpos|by apply Hfit]. }
    rewrite (proj2 (Z.leb_gt _ _) (proj1 Hid)), (proj2 (Z.ltb_ge _ _) (proj2 Hid)).
    destruct (select_by_id_Some _ _ Hin) as [r' ->]. cbn.
    split_and!; try done.
    + intros r. rewrite list_elem_of_filter. tauto.
    + intros Hnd. apply length_filter_id; [done|].
      destruct Hin as (r & Hr & <-). by apply list_elem_of_fmap_2.
  - intros Hid Hnone. rewrite (proj2 (Z.leb_gt _ _) Hid).
    destruct (Z.ltb_spec sqlite_max_integer submission_id) as [Hbig|Hfit].
    + by rewrite (proj2 (Z.leb_gt _ _) Hbig).
    + by rewrite (select_by_id_None _ _ Hnone), (proj2 (Z.leb_le _ _) Hfit).
Qed.

(** A table of two rows: id 1 is deleted, id 7 is not found. *)
Lemma delete_submission_existing_or_not_witness :
  let s := {| form_access := false; admin_logged_in := true; permanent := true |} in
  let r1 := Row.mk 1 (lit "gioia") (lit "Sentimento") (Some (lit "Mario")) (lit "2024") in
  let r2 := Row.mk 2 (lit "amore") (lit "Sentimento") None (lit "2024") in
  let st := {| rows := [r1; r2]; seq := 2 |} in
  rows (store (delete_submission 1 s st)) = [r2]
  ∧ store (delete_submission 7 s st) = st
  ∧ flashed (delete_submission 7 s st) = [(ContributoNonTrovato, error)].
Proof.
  intros s r1 r2 st.
  pose proof (delete_submission_existing_or_not 1 s st eq_refl) as (H1 & _).
  pose proof (delete_submission_existing_or_not 7 s st eq_refl) as (_ & H7).
  assert (Habsent : ∀ r, r ∈ rows st → Row.id r ≠ 7%Z).
  { intros r Hr.
    apply elem_of_cons in Hr as [->|Hr]; [done|].
    apply elem_of_cons in Hr as [->|Hr]; [done|]. by apply elem_of_nil in Hr. }
  split_and!.
  - destruct H1 as (_ & _ & _ & -> & _); [| | |reflexivity].
    + exists r1. split; [|reflexivity]. apply elem_of_cons. by left.
    + repeat constructor.
    + by repeat constructor.
  - by apply H7.
  - by apply H7.
Defined.

Lemma select_by_parola_frase_None (p f : str) (st : Store) :
  select_by_parola_frase p f st = None ↔ ¬ stored p f st.
Proof.
  unfold select_by_parola_frase, stored. split.
  - intros Hfind (r & Hin & Hr). apply list_elem_of_In in Hin.
    apply (find_none _ _ Hfind) in Hin. by apply bool_decide_eq_false in Hin.
  - intros Hnone. destruct (List.find _ (rows st)) as [r|] eqn:Hfind; [|done].
    apply find_some in Hfind as [Hin Hr]. apply bool_decide_eq_true in Hr.
    destruct Hnone. exists r. by rewrite list_elem_of_In.
Qed.

Lemma select_by_parola_frase_stored (p f : str) (st : Store) (r : Row.t) :
  select_by_parola_frase p f st = Some r → stored p f st.
Proof.
  intros [Hin Hr]%find_some. apply bool_decide_eq_true in Hr.
  exists r. by rewrite list_elem_of_In.
Qed.

Lemma select_by_parola_frase_Some (p f : str) (st : Store) :
  stored p f st → ∃ r, select_by_parola_frase p f st = Some r.
Proof.
  intros Hst. destruct (select_by_parola_frase p f st) as [r|] eqn:Hsel; [by exists r|].
  by apply select_by_parola_frase_None in Hsel.
Qed.

Lemma stored_insert (p f p' f' : str) (n : option str) (now : str) (st : Store) :
  stored p f (insert p' f' n now st) ↔ stored p f st ∨ (p' = p ∧ f' = f).
Proof.
  unfold stored, insert. cbn [rows]. split.
  - intros (r & [Hin| ->%list_elem_of_singleton]%elem_of_app & Hp & Hf); [|by right].
    left. by exists r.
  - intros [(r & Hin & Hr)|[-> ->]].
    + exists r. split; [|done]. apply elem_of_app. by left.
    + eexists. split; [apply elem_of_app; right; by apply list_elem_of_singleton|done].
Qed.

Lemma no_duplicate_pairs_insert (p f : str) (n : option str) (now : str) (st : Store) :
  select_by_parola_frase p f st = None →
  no_duplicate_pairs st → no_duplicate_pairs (insert p f n now st).
Proof.
  intros Hsel%select_by_parola_frase_None Hnd. unfold no_duplicate_pairs, insert.
  cbn [rows]. rewrite fmap_app. apply NoDup_app. split_and!; [done| |apply NoDup_singleton].
  intros pr (r & -> & Hin)%list_elem_of_fmap Heq%list_elem_of_singleton.
  apply Hsel. exists r. by inversion Heq.
Qed.

Lemma no_duplicate_pairs_delete (i : Z) (st : Store) :
  no_duplicate_pairs st → no_duplicate_pairs (delete_by_id i st).
Proof.
  unfold no_duplicate_pairs, delete_by_id. cbn [rows]. intros Hnd.
  eapply sublist_NoDup; [exact Hnd|]. apply fmap_sublist, sublist_filter.
Qed.

(** ** The data the forms bind *)

Lemma formdata_form (req : Request) : form req ≠ ∅ → formdata req = form req.
Proof. intros Hne. unfold formdata. by rewrite bool_decide_eq_false_2. Qed.

(** A request with a field in [request.form] has its forms bound to
    [request.form]. *)
Lemma formdata_field (req : Request) (k : string) (v : str) :
  form req !! k = Some v → formdata req = form req.
Proof. intros Hk. apply formdata_form. intros Hempty. by rewrite Hempty in Hk. Qed.

Lemma formdata_json (req : Request) :
  form req = ∅ → formdata req = default ∅ (json req).
Proof. intros Hempty. unfold formdata. by rewrite bool_decide_eq_true_2. Qed.

(** ** Submissions *)

Section SubmissionProperties.
Context `{!PyStr, !Bleach}.
Variable env : Env.

Lemma field_errors_nil (required too_long : Message) (min max : nat) (data : option str) :
  field_errors required too_long min max data = [] → ∃ v, data = Some v.
Proof.
  unfold field_errors. destruct data as [v|]; [by exists v|]. by cbn.
Qed.

(** What [index] does with a POST of a contribution that passes the
    constraints, the contributor gate being set: the outcome hangs on the
    duplicate lookup alone. *)
Lemma index_contribution (now : str) (req : Request) (s : Session) (st : Store) :
  method req = POST →
  form req !! "access_password" = None →
  form_access s = true →
  passes_constraints (formdata req) = true →
  ∃ parola frase_indizio nome,
    sanitize_input (formdata req !! "parola") = Some parola
    ∧ sanitize_input (formdata req !! "frase_indizio") = Some frase_indizio
    ∧ sanitize_input (formdata req !! "nome") = Some nome
    ∧ index env now req s st =
      match select_by_parola_frase (lower parola) frase_indizio st with
      | Some _ => Out (render_template index_html) s st [(GiaRegistrato, error)]
      | None =>
          Out (render_template (success_html (Some nome))) s
              (insert (lower parola) frase_indizio (Some nome) now st)
              [(GrazieRegistrato, success)]
      end.
Proof.
  intros Hpost Hlogin Hgate [Herr Hvalid]%andb_prop.
  apply bool_decide_eq_true in Herr.
  pose proof Herr as Herr'. unfold contribution_errors in Herr'.
  apply app_eq_nil in Herr' as [_ [_ Hnome]%app_eq_nil].
  apply field_errors_nil in Hnome as [n Hn].
  destruct (sanitize_input (formdata req !! "parola")) as [p|] eqn:Hp; [|done].
  destruct (sanitize_input (formdata req !! "frase_indizio")) as [f|] eqn:Hf; [|done].
  apply andb_prop in Hvalid as [Hword Hclue].
  exists p, f, (clean (strip n)). split_and!; [done|done|by rewrite Hn, sanitize_input_clean|].
  unfold index. rewrite Hpost, Hlogin, Hgate, Herr, Hp, Hf, Hword, Hclue.
  rewrite Hn, sanitize_input_clean. reflexivity.
Qed.

(** [index] leaves the store as it was or inserts one row: the
    lower-cased form of a valid word with a clue, a pair the lookup did
    not find. *)
Lemma index_store (now : str) (req : Request) (s : Session) (st : Store) :
  store (index env now req s st) = st
  ∨ ∃ w f n, is_valid_word w = true
      ∧ select_by_parola_frase (lower w) f st = None
      ∧ store (index env now req s st) = insert (lower w) f n now st.
Proof.
  unfold index. repeat case_match; cbn [store]; eauto.
  right. eexists _, _, _. split_and!; [|eassumption|reflexivity].
  by apply negb_false_iff.
Qed.

Lemma handle_store (c : Call) (s : Session) (st : Store) :
  store (handle env c s st) = st
  ∨ (∃ w f n now, is_valid_word w = true
       ∧ select_by_parola_frase (lower w) f st = None
       ∧ store (handle env c s st) = insert (lower w) f n now st)
  ∨ ∃ i, store (handle env c s st) = delete_by_id i st.
Proof.
  destruct c as [now req|req| |i| |]; cbn [handle].
  - destruct (index_store now req s st) as [->|(w & f & n & Hw & Hsel & ->)]; eauto 10.
  - left. unfold admin. by repeat case_match.
  - left. unfold export_csv. by case_match.
  - unfold delete_submission. repeat case_match; cbn [store]; eauto.
  - by left.
  - by left.
Qed.
End SubmissionProperties.

Lemma max_rowid_bound (l : list Row.t) (r : Row.t) :
  r ∈ l → (Row.id r ≤ max_rowid l)%Z.
Proof.
  induction l as [|r' l IH]; [by intros ?%elem_of_nil|].
  cbn [max_rowid foldr]. intros [->|Hin%IH]%elem_of_cons; fold (max_rowid l); lia.
Qed.

(** The id [insert] gives is the id of no row of the table. *)
Lemma insert_fresh_id (st : Store) (r : Row.t) :
  r ∈ rows st → Row.id r ≠ (Z.max (seq st) (max_rowid (rows st)) + 1)%Z.
Proof. intros Hin%max_rowid_bound. lia. Qed.

Lemma unique_ids_insert (p f : str) (n : option str) (now : str) (st : Store) :
  unique_ids st → unique_ids (insert p f n now st).
Proof.
  unfold unique_ids, insert. cbn [rows]. intros Hnd.
  rewrite fmap_app. apply NoDup_app. split_and!; [done| |apply NoDup_singleton].
  intros i (r & -> & Hin)%list_elem_of_fmap Heq%list_elem_of_singleton.
  by apply (insert_fresh_id st r).
Qed.

Lemma max_rowid_nonneg (l : list Row.t) : (0 ≤ max_rowid l)%Z.
Proof. induction l as [|r l IH]; cbn [max_rowid foldr]; [done|fold (max_rowid l); lia]. Qed.

Lemma positive_ids_insert (p f : str) (n : option str) (now : str) (st : Store) :
  positive_ids st → positive_ids (insert p f n now st).
Proof.
  unfold positive_ids, insert. cbn [rows]. intros Hpos.
  apply Forall_app. split; [done|]. apply Forall_singleton. cbn [Row.id].
  pose proof (max_rowid_nonneg (rows st)). lia.
Qed.

Lemma positive_ids_delete (i : Z) (st : Store) :
  positive_ids st → positive_ids (delete_by_id i st).
Proof.
  unfold positive_ids, delete_by_id. cbn [rows]. rewrite !Forall_forall.
  intros Hst r [_ Hin]%list_elem_of_filter. by apply Hst.
Qed.

Lemma unique_ids_delete (i : Z) (st : Store) :
  unique_ids st → unique_ids (delete_by_id i st).
Proof.
  unfold unique_ids, delete_by_id. cbn [rows]. intros Hnd.
  eapply sublist_NoDup; [exact Hnd|]. apply fmap_sublist, sublist_filter.
Qed.

Section StoreInvariant.
Context `{!PyStr, !Bleach}.
Variable env : Env.

Lemma stored_lowercase_insert (w f : str) (n : option str) (now : str) (st : Store) :
  is_valid_word w = true →
  stored_lowercase st → stored_lowercase (insert (lower w) f n now st).
Proof.
  intros Hw Hst. unfold stored_lowercase, insert. cbn [rows].
  apply Forall_app. split; [done|]. apply Forall_singleton. cbn.
  by apply lower_valid_word.
Qed.

Lemma stored_lowercase_delete (i : Z) (st : Store) :
  stored_lowercase st → stored_lowercase (delete_by_id i st).
Proof.
  unfold stored_lowercase, delete_by_id. cbn [rows]. rewrite !Forall_forall.
  intros Hst r [_ Hin]%list_elem_of_filter. by apply Hst.
Qed.

Lemma handle_store_invariant (c : Call) (s : Session) (st : Store) :
  store_invariant st → store_invariant (store (handle env c s st)).
Proof.
  intros [Hnd Hlow].
  destruct (handle_store env c s st)
    as [->|[(w & f & n & now & Hw & Hsel & ->)|[i ->]]]; [done| |].
  - split; [by apply no_duplicate_pairs_insert|by apply stored_lowercase_insert].
  - split; [by apply no_duplicate_pairs_delete|by apply stored_lowercase_delete].
Qed.

Lemma handle_unique_ids (c : Call) (s : Session) (st : Store) :
  unique_ids st → unique_ids (store (handle env c s st)).
Proof.
  intros Hnd.
  destruct (handle_store env c s st)
    as [->|[(w & f & n & now & Hw & Hsel & ->)|[i ->]]]; [done| |].
  - by apply unique_ids_insert.
  - by apply unique_ids_delete.
Qed.

Lemma run_preserves (P : Store → Prop) (cs : list (Call * Session)) (st : Store) :
  (∀ c s st', P st' → P (store (handle env c s st'))) → P st → P (run env cs st).
Proof.
  intros Hstep. revert st. induction cs as [|[c s] cs IH]; intros st Hst; [done|].
  cbn [run]. by apply IH, Hstep.
Qed.

Lemma handle_positive_ids (c : Call) (s : Session) (st : Store) :
  positive_ids st → positive_ids (store (handle env c s st)).
Proof.
  intros Hpos.
  destruct (handle_store env c s st)
    as [->|[(w & f & n & now & Hw & Hsel & ->)|[i ->]]]; [done| |].
  - by apply positive_ids_insert.
  - by apply positive_ids_delete.
Qed.

(** Ids stay unique and positive in every table the requests can make of
    the one [init_db] creates. *)
Lemma run_ids (cs : list (Call * Session)) :
  unique_ids (run env cs init_db) ∧ positive_ids (run env cs init_db).
Proof.
  split.
  - apply run_preserves; [apply handle_unique_ids|]. apply NoDup_nil_2.
  - apply run_preserves; [apply handle_positive_ids|]. apply Forall_nil_2.
Qed.

Lemma store_invariant_lowercased_pairs (st : Store) :
  store_invariant st → NoDup (lowercased_pair <$> rows st).
Proof.
  intros [Hnd Hlow]. unfold no_duplicate_pairs in Hnd.
  rewrite (Forall_fmap_ext_1 lowercased_pair pair_of); [done|].
  eapply Forall_impl; [exact Hlow|]. intros r Hr.
  unfold lowercased_pair, pair_of. by rewrite Hr.
Qed.

(** C3.  In the table [init_db] creates no two rows share a (word, clue)
    pair and every word is stored lower-cased; every request, whatever its
    route, its session and its arguments, keeps both so; hence in every
    store that a sequence of requests reaches from there no two rows
    share the pair (lower-cased word, clue). *)
Theorem no_duplicate_pairs_reachable :
  store_invariant init_db
  ∧ (∀ c s st, store_invariant st → store_invariant (store (handle env c s st)))
  ∧ (∀ cs, store_invariant (run env cs init_db)
           ∧ NoDup (lowercased_pair <$> rows (run env cs init_db))).
Proof.
  assert (Hinit : store_invariant init_db).
  { split; [apply NoDup_nil_2|apply Forall_nil_2]. }
  split_and!; [done|apply handle_store_invariant|].
  intros cs.
  assert (Hrun : store_invariant (run env cs init_db)).
  { by apply run_preserves; [apply handle_store_invariant|]. }
  split; [done|by apply store_invariant_lowercased_pairs].
Qed.
End StoreInvariant.

(** ** Gated submission *)

Section GatedSubmission.
Context `{!PyStr, !Bleach}.
Variable env : Env.

(** C1, amended.  While the contributor gate is set, a POST to [/] that
    carries no [access_password] field in [request.form] and whose (word,
    clue, name), as the form binds them from [request.form] or from a JSON
    body, passes the length and character-class constraints, the pair
    (lower-cased word, clue) not being stored yet, appends exactly one row,
    under an id no row has: the sanitized word lower-cased, the sanitized
    clue and the sanitized name as they are, stamped with the time of the
    insert.  Where the pair is stored, the same POST is turned down as a
    duplicate and the store stays as it was. *)
Theorem index_inserts_one_row (now : str) (req : Request) (s : Session) (st : Store) :
  method req = POST →
  form req !! "access_password" = None →
  form_access s = true →
  passes_constraints (formdata req) = true →
  ∃ parola frase_indizio nome,
    sanitize_input (formdata req !! "parola") = Some parola
    ∧ sanitize_input (formdata req !! "frase_indizio") = Some frase_indizio
    ∧ sanitize_input (formdata req !! "nome") = Some nome
    ∧ (¬ stored (lower parola) frase_indizio st →
       let o := index env now req s st in
       ∃ i, rows (store o) =
              rows st ++ [Row.mk i (lower parola) frase_indizio (Some nome) now]
         ∧ (∀ r, r ∈ rows st → Row.id r ≠ i)
         ∧ response o = render_template (success_html (Some nome))
         ∧ session o = s
         ∧ flashed o = [(GrazieRegistrato, success)])
    ∧ (stored (lower parola) frase_indizio st →
       index env now req s st
       = Out (render_template index_html) s st [(GiaRegistrato, error)]).
Proof.
  intros Hpost Hlogin Hgate Hpass.
  destruct (index_contribution env now req s st Hpost Hlogin Hgate Hpass)
    as (p & f & n & Hp & Hf & Hn & Hindex).
  exists p, f, n. split_and!; [done..| |].
  - intros Hnew%select_by_parola_frase_None. cbn zeta. rewrite Hindex, Hnew.
    eexists. split_and!; [reflexivity| |done..].
    apply insert_fresh_id.
  - intros [r Hr]%select_by_parola_frase_Some. by rewrite Hindex, Hr.
Qed.

(** C2.  Two POSTs in a row, both through the gate and both passing the
    constraints.  If the second has the word of the first up to case and
    the very same clue, it is rejected with "Questo contributo è già stato
    registrato" and writes nothing, so that the two of them add exactly
    one row when the pair was new.  If its clue differs from the first by
    as little as the case of a letter, or its word differs even when
    lower-cased, it is no duplicate of the first: it is stored unless the
    table already held its pair. *)
Theorem duplicate_submission_rejected
    (now1 now2 : str) (req1 req2 : Request) (s : Session) (st : Store) :
  method req1 = POST → method req2 = POST →
  form req1 !! "access_password" = None →
  form req2 !! "access_password" = None →
  form_access s = true →
  passes_constraints (formdata req1) = true →
  passes_constraints (formdata req2) = true →
  ∃ p1 f1 p2 f2,
    sanitize_input (formdata req1 !! "parola") = Some p1
    ∧ sanitize_input (formdata req1 !! "frase_indizio") = Some f1
    ∧ sanitize_input (formdata req2 !! "parola") = Some p2
    ∧ sanitize_input (formdata req2 !! "frase_indizio") = Some f2
    ∧ let o1 := index env now1 req1 s st in
      let o2 := index env now2 req2 s (store o1) in
      (lower p2 = lower p1 → f2 = f1 →
         store o2 = store o1
         ∧ response o2 = render_template index_html
         ∧ flashed o2 = [(GiaRegistrato, error)]
         ∧ (¬ stored (lower p1) f1 st → ∃ r, rows (store o2) = rows st ++ [r]))
      ∧ (lower p2 ≠ lower p1 ∨ f2 ≠ f1 →
         ¬ stored (lower p2) f2 st →
         ∃ r, rows (store o2) = rows (store o1) ++ [r]
           ∧ Row.parola r = lower p2 ∧ Row.frase_indizio r = f2).
Proof.
  intros Hpost1 Hpost2 Hlogin1 Hlogin2 Hgate Hpass1 Hpass2.
  destruct (index_contribution env now1 req1 s st Hpost1 Hlogin1 Hgate Hpass1)
    as (p1 & f1 & n1 & Hp1 & Hf1 & _ & Hfirst).
  exists p1, f1.
  set (o1 := index env now1 req1 s st) in *.
  destruct (index_contribution env now2 req2 s (store o1) Hpost2 Hlogin2 Hgate Hpass2)
    as (p2 & f2 & n2 & Hp2 & Hf2 & _ & Hsecond).
  exists p2, f2. split_and!; [done..|]. cbn zeta.
  assert (Hafter : stored (lower p1) f1 (store o1)).
  { rewrite Hfirst.
    destruct (select_by_parola_frase (lower p1) f1 st) eqn:Hsel; cbn [store].
    - by eapply select_by_parola_frase_stored.
    - apply stored_insert. by right. }
  split.
  - intros Hp Hf. rewrite Hp, Hf in Hsecond.
    destruct (select_by_parola_frase_Some _ _ _ Hafter) as [r Hr].
    rewrite Hr in Hsecond. rewrite Hsecond. split_and!; [done..|].
    intros Hnew%select_by_parola_frase_None. cbn [store]. rewrite Hfirst, Hnew.
    by eexists.
  - intros Hdiff Hnew.
    assert (Hsel : select_by_parola_frase (lower p2) f2 (store o1) = None).
    { apply select_by_parola_frase_None. rewrite Hfirst.
      destruct (select_by_parola_frase (lower p1) f1 st); cbn [store]; [done|].
      rewrite stored_insert. intros [?|[? ?]]; [done|]. destruct Hdiff; congruence. }
    rewrite Hsecond, Hsel. cbn [store insert rows]. by eexists.
Qed.
End GatedSubmission.

(** ** The two login forms *)

Lemma DataRequired_Some (t : str) :
  DataRequired (Some t) = negb (bool_decide (strip t = [])).
Proof. destruct t; reflexivity. Qed.

Section Login.
Context `{!PyStr, !Bleach}.
Variable env : Env.

Lemma index_login (now : str) (req : Request) (submitted : str) (s : Session) (st : Store) :
  method req = POST →
  form req !! "access_password" = Some submitted →
  index env now req s st =
  if negb (bool_decide (strip submitted = [])) then
    if bool_decide (clean (strip submitted) = get_form_password env) then
      Out (redirect index_url) (grant_form_access s) st []
    else Out (render_template form_login_html) s st [(PasswordErrataChiedi, error)]
  else Out (render_template form_login_html) s st [].
Proof.
  intros Hpost Hfield. unfold index.
  rewrite Hpost, (formdata_field req _ _ Hfield), Hfield.
  rewrite bool_decide_eq_true_2 by by eexists.
  rewrite DataRequired_Some, sanitize_input_clean.
  destruct (negb _); [|done].
  by rewrite (bool_decide_ext _ (clean (strip submitted) = get_form_password env))
    by (split; [by intros [=]|by intros ->]).
Qed.

Lemma admin_login (req : Request) (submitted : str) (s : Session) (st : Store) :
  method req = POST →
  formdata req !! "password" = Some submitted →
  admin env req s st =
  if negb (bool_decide (strip submitted = [])) then
    if bool_decide (clean (strip submitted) = get_admin_password env) then
      Out (redirect admin_url) (grant_admin s) st []
    else Out (render_template admin_login_html) s st [(PasswordErrata, error)]
  else Out (render_template admin_login_html) s st [].
Proof.
  intros Hpost Hfield. unfold admin. rewrite Hpost, Hfield.
  rewrite DataRequired_Some, sanitize_input_clean.
  destruct (negb _); [|done].
  by rewrite (bool_decide_ext _ (clean (strip submitted) = get_admin_password env))
    by (split; [by intros [=]|by intros ->]).
Qed.

(** C4, amended.  Either login form grants its gate (answers with the
    redirect, sets its flag and makes the session permanent) exactly when
    the submitted string is not blank and, once sanitized (trimmed and
    cleaned of markup), equals the configured secret, code point by code
    point and so with case.  In every other case the session and the
    store stay as they were and the login page is shown again, with
    "Password errata" flashed when the string was not blank.  For a
    submitted string that is plain and has no white space around it, this
    is equality of the submitted string itself with the secret.  The login
    to [/] is a POST with the field [access_password] in [request.form];
    the login to [/admin] is a POST whose [password] the form binds, from
    [request.form] or from a JSON body. *)
Theorem attempt_login_compares_sanitized
    (now : str) (req : Request) (submitted : str) (s : Session) (st : Store) :
  method req = POST →
  let o := index env now req s st in
  let a := admin env req s st in
  (form req !! "access_password" = Some submitted →
     (response o = redirect index_url ↔
        strip submitted ≠ [] ∧ clean (strip submitted) = get_form_password env)
     ∧ (response o = redirect index_url → session o = grant_form_access s ∧ flashed o = [])
     ∧ (response o ≠ redirect index_url →
          response o = render_template form_login_html ∧ session o = s
          ∧ (strip submitted ≠ [] → flashed o = [(PasswordErrataChiedi, error)]))
     ∧ store o = st
     ∧ (forallb plain_char submitted = true → strip submitted = submitted →
        submitted ≠ [] →
          (response o = redirect index_url ↔ submitted = get_form_password env)))
  ∧ (formdata req !! "password" = Some submitted →
     (response a = redirect admin_url ↔
        strip submitted ≠ [] ∧ clean (strip submitted) = get_admin_password env)
     ∧ (response a = redirect admin_url → session a = grant_admin s ∧ flashed a = [])
     ∧ (response a ≠ redirect admin_url →
          response a = render_template admin_login_html ∧ session a = s
          ∧ (strip submitted ≠ [] → flashed a = [(PasswordErrata, error)]))
     ∧ store a = st
     ∧ (forallb plain_char submitted = true → strip submitted = submitted →
        submitted ≠ [] →
          (response a = redirect admin_url ↔ submitted = get_admin_password env))).
Proof.
  intros Hpost. cbn zeta.
  assert (Hplain : forallb plain_char submitted = true → strip submitted = submitted →
    clean (strip submitted) = submitted).
  { intros Hp ->. by apply clean_plain. }
  split; intros Hfield.
  - rewrite (index_login now req submitted s st Hpost Hfield).
    destruct (decide (strip submitted = [])) as [Hblank|Hblank].
    { rewrite bool_decide_eq_true_2 by done. cbn [negb response session store flashed].
      split_and!; try done; try (split; [done|by intros [? ?]]).
      intros _ Hstrip Hne. congruence. }
    rewrite (bool_decide_eq_false_2 _ Hblank). cbn [negb].
    destruct (decide (clean (strip submitted) = get_form_password env)) as [Hf|Hf];
      [rewrite (bool_decide_eq_true_2 _ Hf)|rewrite (bool_decide_eq_false_2 _ Hf)];
      cbn [response session store flashed];
      (split_and!; try done; try (split; [done|by intros [_ ?]]);
       intros Hp Hs _; rewrite (Hplain Hp Hs) in *;
       split; intros ?; first [done|congruence]).
  - rewrite (admin_login req submitted s st Hpost Hfield).
    destruct (decide (strip submitted = [])) as [Hblank|Hblank].
    { rewrite bool_decide_eq_true_2 by done. cbn [negb response session store flashed].
      split_and!; try done; try (split; [done|by intros [? ?]]).
      intros _ Hstrip Hne. congruence. }
    rewrite (bool_decide_eq_false_2 _ Hblank). cbn [negb].
    destruct (decide (clean (strip submitted) = get_admin_password env)) as [Ha|Ha];
      [rewrite (bool_decide_eq_true_2 _ Ha)|rewrite (bool_decide_eq_false_2 _ Ha)];
      cbn [response session store flashed];
      (split_and!; try done; try (split; [done|by intros [_ ?]]);
       intros Hp Hs _; rewrite (Hplain Hp Hs) in *;
       split; intros ?; first [done|congruence]).
Qed.
End Login.

(** ** The name field and the export *)

Lemma insert_desc_Permutation (r : Row.t) (l : list Row.t) :
  insert_desc r l ≡ₚ r :: l.
Proof.
  induction l as [|r' l IH]; [done|].
  cbn [insert_desc]. destruct (str_ltb _ _); [|done].
  rewrite IH. apply Permutation_swap.
Qed.

(** Sorting the rows neither drops nor adds one. *)
Lemma order_by_timestamp_desc_Permutation (l : list Row.t) :
  order_by_timestamp_desc l ≡ₚ l.
Proof.
  induction l as [|r l IH]; [done|].
  unfold order_by_timestamp_desc. cbn [foldr]. fold (order_by_timestamp_desc l).
  by rewrite insert_desc_Permutation, IH.
Qed.

Section NameField.
Context `{!PyStr, !Bleach}.
Variable env : Env.

(** C9, amended.  The form requires the name: through the gate, a POST
    (with no [access_password] field in [request.form]) whose name, as the
    form binds it, is missing, empty or blank is turned down with "Il nome è
    obbligatorio" and stores nothing, whatever its word and clue.  The
    column itself may be empty or null, and the export writes one line per
    row, with "Anonimo" for a name that is null or empty and the stored
    name otherwise. *)
Theorem nome_required_export_anonimo
    (now : str) (req : Request) (s : Session) (st : Store) :
  (method req = POST → form req !! "access_password" = None → form_access s = true →
   DataRequired (formdata req !! "nome") = false →
     let o := index env now req s st in
     store o = st ∧ response o = render_template index_html
     ∧ (IlNomeEObbligatorio, error) ∈ flashed o)
  ∧ (admin_logged_in s = true →
     ∃ lines, response (export_csv s st) = csv_attachment (csv_header :: lines)
       ∧ lines ≡ₚ csv_row <$> rows st)
  ∧ (∀ r, ∃ name,
       csv_row r = [Row.parola r; Row.frase_indizio r; name; Row.timestamp r]
       ∧ (Row.nome r = None ∨ Row.nome r = Some [] → name = lit "Anonimo")
       ∧ (∀ n, Row.nome r = Some n → n ≠ [] → name = n)).
Proof.
  split_and!.
  - intros Hpost Hlogin Hgate Hnome. cbn zeta.
    assert (Herr : IlNomeEObbligatorio ∈ contribution_errors (formdata req)).
    { unfold contribution_errors. rewrite !elem_of_app. right. right.
      unfold field_errors. rewrite Hnome. by apply list_elem_of_singleton. }
    unfold index. rewrite Hpost, Hlogin, Hgate. cbn [bool_decide negb].
    rewrite bool_decide_eq_false_2 by by intros [? ?].
    destruct (contribution_errors (formdata req)) as [|e errors] eqn:Herrors;
      [by apply elem_of_nil in Herr|].
    cbn [store response flashed]. unfold index_page. rewrite Hgate.
    split_and!; [done..|]. by apply (list_elem_of_fmap_2 (λ e, (e, error))).
  - intros Hgate. unfold export_csv. rewrite Hgate. eexists. split; [reflexivity|].
    apply fmap_Permutation, order_by_timestamp_desc_Permutation.
  - intros r. exists (nome_or_anonimo (Row.nome r)). split_and!; [done| |].
    + by intros [->| ->].
    + intros n -> Hn. by destruct n.
Qed.
End NameField.

(** ** Fields the handler does not read *)

Section ExtraFields.
Context `{!PyStr, !Bleach}.
Variable env : Env.

(** What [index] reads of a request: its method, the field
    [access_password] of [request.form], and the three fields that
    [ContributionForm] binds. *)
Lemma index_agree (now : str) (req1 req2 : Request) (s : Session) (st : Store) :
  method req1 = method req2 →
  form req1 !! "access_password" = form req2 !! "access_password" →
  formdata req1 !! "parola" = formdata req2 !! "parola" →
  formdata req1 !! "frase_indizio" = formdata req2 !! "frase_indizio" →
  formdata req1 !! "nome" = formdata req2 !! "nome" →
  index env now req1 s st = index env now req2 s st.
Proof.
  intros Hm Ha Hp Hf Hn. unfold index, contribution_errors. rewrite Hm, Hp, Hf, Hn, Ha.
  destruct (form req2 !! "access_password") as [submitted|] eqn:Ha2; [|done].
  by rewrite (formdata_field req1 _ _ Ha), (formdata_field req2 _ _ Ha2), Ha, Ha2.
Qed.

(** C10, amended.  Two requests to [/] with the same method that agree on
    the field [access_password] of [request.form] (sent or not, and with
    what value) and on the fields [parola], [frase_indizio] and [nome] as
    the form binds them, from [request.form] or, when that is empty, from a
    JSON body, get the same outcome from the same session, store and clock,
    whatever other fields they carry.  A filled [website] field changes
    nothing, in a form-encoded body and in a JSON body alike. *)
Theorem index_reads_four_fields
    (now : str) (req1 req2 : Request) (s : Session) (st : Store) :
  method req1 = method req2 →
  form req1 !! "access_password" = form req2 !! "access_password" →
  formdata req1 !! "parola" = formdata req2 !! "parola" →
  formdata req1 !! "frase_indizio" = formdata req2 !! "frase_indizio" →
  formdata req1 !! "nome" = formdata req2 !! "nome" →
  index env now req1 s st = index env now req2 s st
  ∧ (∀ honeypot, json req1 = None →
       index env now
         {| method := method req1; form := <["website" := honeypot]> (form req1);
            json := None |} s st
       = index env now req1 s st)
  ∧ (∀ honeypot body, form req1 = ∅ → json req1 = Some body →
       index env now
         {| method := method req1; form := ∅;
            json := Some (<["website" := honeypot]> body) |} s st
       = index env now req1 s st).
Proof.
  intros Hm Ha Hp Hf Hn. split_and!; [by apply index_agree|..].
  - intros honeypot Hjson.
    assert (Hdata : ∀ k : string, k ≠ "website" →
      formdata {| method := method req1; form := <["website" := honeypot]> (form req1);
                  json := None |} !! k = formdata req1 !! k).
    { intros k Hk. rewrite (formdata_field _ "website" honeypot)
        by apply lookup_insert_eq.
      cbn [form]. rewrite lookup_insert_ne by done.
      unfold formdata. rewrite Hjson. case_bool_decide as Hempty; [|done].
      by rewrite Hempty. }
    apply index_agree; cbn [method form]; rewrite ?Hdata by done; try done.
    by apply lookup_insert_ne.
  - intros honeypot body Hempty Hjson.
    apply index_agree; cbn [method form]; [done|by rewrite Hempty|..];
      rewrite (formdata_json req1 Hempty), Hjson, formdata_json by done;
      cbn [json from_option id]; by apply lookup_insert_ne.
Qed.
End ExtraFields.

(** ** The scenario, computed *)

Section PlainContribution.
Context `{!PyStr, !Bleach}.
Variable env : Env.

(** A contribution whose three fields are plain once trimmed: the
    sanitizer only trims it and [lower] is [lower_char] throughout, so
    that what [index] does can be computed. *)
Lemma index_plain_contribution
    (now : str) (req : Request) (w c n : str) (s : Session) (st : Store) :
  method req = POST →
  form req !! "access_password" = None →
  formdata req !! "parola" = Some w →
  formdata req !! "frase_indizio" = Some c →
  formdata req !! "nome" = Some n →
  form_access s = true →
  contribution_errors (formdata req) = [] →
  forallb plain_char (strip w) && forallb plain_char (strip c)
    && forallb plain_char (strip n) = true →
  is_valid_word (strip w) && is_valid_clue (strip c) = true →
  passes_constraints (formdata req) = true
  ∧ index env now req s st =
    match select_by_parola_frase (map lower_char (strip w)) (strip c) st with
    | Some _ => Out (render_template index_html) s st [(GiaRegistrato, error)]
    | None =>
        Out (render_template (success_html (Some (strip n)))) s
            (insert (map lower_char (strip w)) (strip c) (Some (strip n)) now st)
            [(GrazieRegistrato, success)]
    end.
Proof.
  intros Hpost Hlogin Hw Hc Hn Hgate Herr [[Hpw Hpc]%andb_prop Hpn]%andb_prop
    [Hvw Hvc]%andb_prop.
  assert (Hpass : passes_constraints (formdata req) = true).
  { unfold passes_constraints.
    rewrite Herr, Hw, Hc, !sanitize_input_plain, Hvw, Hvc by done. done. }
  split; [done|].
  destruct (index_contribution env now req s st Hpost Hlogin Hgate Hpass)
    as (p & f & m & Hp & Hf & Hm & ->).
  rewrite Hw, sanitize_input_plain in Hp by done.
  rewrite Hc, sanitize_input_plain in Hf by done.
  rewrite Hn, sanitize_input_plain in Hm by done.
  injection Hp as <-. injection Hf as <-. injection Hm as <-.
  by rewrite (proj1 (lower_valid_word (strip w) Hvw)).
Qed.
End PlainContribution.

(** The contribution of the scenario, posted through the gate. *)
Lemma index_gioia `{!PyStr, !Bleach} (env : Env) (now : str) (st : Store) :
  passes_constraints gioia = true
  ∧ index env now (post gioia) contributor st =
    match select_by_parola_frase (lit "gioia") clue_gioia st with
    | Some _ => Out (render_template index_html) contributor st [(GiaRegistrato, error)]
    | None =>
        Out (render_template (success_html (Some (lit "Mario Rossi")))) contributor
            (insert (lit "gioia") clue_gioia (Some (lit "Mario Rossi")) now st)
            [(GrazieRegistrato, success)]
    end.
Proof.
  by apply (index_plain_contribution env now (post gioia) (lit "GIOIA") clue_gioia
              (lit "Mario Rossi") contributor st).
Qed.

(** C1, as stated, fails where the pair is stored already.  GIOIA with its
    clue and a name passes every length and character-class constraint;
    posted through the gate to the table [init_db] creates it is stored, as
    [gioia]; posted again, it passes the same constraints and no row is
    inserted. *)
Lemma valid_triple_already_stored :
  gioia !! "access_password" = None ∧ form_access contributor = true
  ∧ ∀ (U : PyStr) (B : Bleach) (env : Env) (now1 now2 : str),
      passes_constraints gioia = true
      ∧ let st := store (index env now1 (post gioia) contributor init_db) in
        rows st = [Row.mk 1 (lit "gioia") clue_gioia (Some (lit "Mario Rossi")) now1]
        ∧ store (index env now2 (post gioia) contributor st) = st.
Proof.
  split_and!; [done..|]. intros U B env now1 now2.
  split; [apply (index_gioia env now1 init_db)|]. cbn zeta.
  rewrite (proj2 (index_gioia env now1 init_db)), (proj2 (index_gioia env now2 _)).
  by vm_compute.
Qed.

(** GIOIA posted to the empty table, over [latin_pystr] and [tag_stripper]. *)
Lemma index_inserts_one_row_witness :
  let now := lit "2024-06-01 10:00:00" in
  ∃ i, rows (store (@index latin_pystr tag_stripper no_env now (post gioia)
                      contributor init_db))
       = [Row.mk i (lit "gioia") clue_gioia (Some (lit "Mario Rossi")) now].
Proof.
  intros now.
  destruct (@index_inserts_one_row latin_pystr tag_stripper no_env now (post gioia)
              contributor init_db eq_refl eq_refl eq_refl eq_refl)
    as (p & f & n & Hp & Hf & Hn & Hnew & _).
  vm_compute in Hp, Hf, Hn.
  injection Hp as <-. injection Hf as <-. injection Hn as <-.
  destruct Hnew as (i & Hrows & _).
  - intros (r & Hr & _). by apply elem_of_nil in Hr.
  - exists i. exact Hrows.
Defined.

(** GIOIA, then Gioia with the same clue under another name: the second is a duplicate. *)
Lemma duplicate_submission_rejected_witness :
  let shout : Form := <["parola" := lit "Gioia"]> (<["nome" := lit "Anna"]> gioia) in
  let st1 := @index latin_pystr tag_stripper no_env (lit "2024-06-01 10:00:00")
               (post gioia) contributor init_db in
  let o2 := @index latin_pystr tag_stripper no_env (lit "2024-06-01 10:00:05")
               (post shout) contributor (store st1) in
  store o2 = store st1 ∧ flashed o2 = [(GiaRegistrato, error)].
Proof.
  intros shout st1 o2.
  destruct (@duplicate_submission_rejected latin_pystr tag_stripper no_env
              (lit "2024-06-01 10:00:00") (lit "2024-06-01 10:00:05")
              (post gioia) (post shout) contributor init_db
              eq_refl eq_refl eq_refl eq_refl eq_refl eq_refl eq_refl)
    as (p1 & f1 & p2 & f2 & Hp1 & Hf1 & Hp2 & Hf2 & Hsame & _).
  vm_compute in Hp1, Hf1, Hp2, Hf2.
  injection Hp1 as <-. injection Hf1 as <-. injection Hp2 as <-. injection Hf2 as <-.
  destruct (Hsame eq_refl eq_refl) as (Hstore & _ & Hflash & _).
  split; [exact Hstore|exact Hflash].
Defined.

(** The invariant after GIOIA has been posted twice. *)
Lemma no_duplicate_pairs_reachable_witness :
  let first := (@call_index (lit "2024-06-01 10:00:00") (post gioia), contributor) in
  @store_invariant latin_pystr
    (@run latin_pystr tag_stripper no_env [first; first] init_db).
Proof.
  intros first.
  exact (proj1 (proj2 (proj2 (@no_duplicate_pairs_reachable latin_pystr tag_stripper no_env))
                 [first; first])).
Defined.

(** C4, as stated, fails both ways.  With the secrets of [no_env], the
    strings [" bianca"] and ["bianca2024 "] are not the secrets and open the
    gates all the same; and where the configured secret is [" bianca"]
    itself, submitting exactly that is turned down. *)
Lemma login_compares_after_sanitizing :
  lit " bianca" ≠ get_form_password no_env
  ∧ lit "bianca2024 " ≠ get_admin_password no_env
  ∧ ∀ (U : PyStr) (B : Bleach) (now : str) (fields : Form) (s : Session) (st : Store),
      index no_env now (post (<["access_password" := lit " bianca"]> fields)) s st
      = Out (redirect index_url) (grant_form_access s) st []
      ∧ admin no_env (post (<["password" := lit "bianca2024 "]> fields)) s st
        = Out (redirect admin_url) (grant_admin s) st []
      ∧ index {| FORM_PASSWORD := Some (lit " bianca"); ADMIN_PASSWORD := None |} now
          (post (<["access_password" := lit " bianca"]> fields)) s st
        = Out (render_template form_login_html) s st [(PasswordErrataChiedi, error)].
Proof.
  split_and!; [done..|]. intros U B now fields s st.
  rewrite !(index_login _ now (post (<["access_password" := lit " bianca"]> fields))
              (lit " bianca") s st eq_refl (lookup_insert_eq _ _ _)).
  rewrite (admin_login no_env (post (<["password" := lit "bianca2024 "]> fields))
             (lit "bianca2024 ") s st eq_refl).
  2:{ rewrite (formdata_field _ "password" (lit "bianca2024 "));
        apply lookup_insert_eq. }
  change (strip (lit " bianca")) with (lit "bianca").
  change (strip (lit "bianca2024 ")) with (lit "bianca2024").
  by rewrite !clean_plain by done.
Qed.

(** ["Bianca"] does not open the contributor gate of [no_env], ["bianca"] does. *)
Lemma attempt_login_compares_sanitized_witness :
  response (@index latin_pystr tag_stripper no_env (lit "2024-06-01 10:00:00")
              (post (<["access_password" := lit "Bianca"]> ∅)) contributor init_db)
  ≠ redirect index_url
  ∧ response (@index latin_pystr tag_stripper no_env (lit "2024-06-01 10:00:00")
              (post (<["access_password" := lit "bianca"]> ∅)) contributor init_db)
    = redirect index_url.
Proof.
  split.
  - intros Hgranted.
    apply (proj1 (proj2 (proj2 (proj2 (proj2
             (proj1 (@attempt_login_compares_sanitized latin_pystr tag_stripper no_env
                       (lit "2024-06-01 10:00:00")
                       (post (<["access_password" := lit "Bianca"]> ∅))
                       (lit "Bianca") contributor init_db eq_refl)
                (lookup_insert_eq _ _ _)))))
             eq_refl eq_refl ltac:(done))) in Hgranted.
    discriminate Hgranted.
  - apply (proj2 (proj2 (proj2 (proj2 (proj2
             (proj1 (@attempt_login_compares_sanitized latin_pystr tag_stripper no_env
                       (lit "2024-06-01 10:00:00")
                       (post (<["access_password" := lit "bianca"]> ∅))
                       (lit "bianca") contributor init_db eq_refl)
                (lookup_insert_eq _ _ _)))))
             eq_refl eq_refl ltac:(done))).
    reflexivity.
Defined.

(** C9, as stated, fails on its first half.  GIOIA and its clue are valid
    (with a name they pass every constraint), but posted through the gate
    with an empty name they are turned down: "Il nome è obbligatorio" is
    flashed and the store stays as it was. *)
Lemma empty_name_not_accepted :
  let nameless : Form := <["nome" := []]> gioia in
  nameless !! "parola" = gioia !! "parola"
  ∧ nameless !! "frase_indizio" = gioia !! "frase_indizio"
  ∧ nameless !! "nome" = Some []
  ∧ ∀ (U : PyStr) (B : Bleach) (env : Env) (now : str) (st : Store),
      passes_constraints gioia = true
      ∧ index env now (post nameless) contributor st
        = Out (render_template index_html) contributor st [(IlNomeEObbligatorio, error)].
Proof.
  intros nameless. split_and!; [done..|]. intros U B env now st. split; [|done].
  apply (index_gioia env now st).
Qed.

(** A blank name is turned down; a row without a name is exported as Anonimo. *)
Lemma nome_required_export_anonimo_witness :
  let nameless : Form := <["nome" := lit "   "]> gioia in
  let admin_session := {| form_access := false; admin_logged_in := true; permanent := true |} in
  let st := {| rows := [Row.mk 1 (lit "gioia") clue_gioia None (lit "2024-06-01 10:00:00")];
               seq := 1 |} in
  store (@index latin_pystr tag_stripper no_env (lit "2024-06-01 10:00:00")
           (post nameless) contributor st) = st
  ∧ ∃ lines, response (export_csv admin_session st) = csv_attachment (csv_header :: lines)
      ∧ lines ≡ₚ [[lit "gioia"; clue_gioia; lit "Anonimo"; lit "2024-06-01 10:00:00"]].
Proof.
  intros nameless admin_session st. split.
  - apply (proj1 (@nome_required_export_anonimo latin_pystr tag_stripper no_env
                    (lit "2024-06-01 10:00:00") (post nameless) contributor st)); reflexivity.
  - apply (proj1 (proj2 (@nome_required_export_anonimo latin_pystr tag_stripper no_env
                    (lit "2024-06-01 10:00:00") (post nameless) admin_session st))); reflexivity.
Defined.

(** C10, as stated, fails for the extra field [access_password].  Two POSTs
    through the gate with the word, the clue and the name of [gioia], the
    second with an [access_password] field besides: the first is accepted
    and stored, the second is taken for a login attempt and stores
    nothing. *)
Lemma access_password_field_changes_outcome :
  let with_password : Form := <["access_password" := lit "x"]> gioia in
  with_password !! "parola" = gioia !! "parola"
  ∧ with_password !! "frase_indizio" = gioia !! "frase_indizio"
  ∧ with_password !! "nome" = gioia !! "nome"
  ∧ ∀ (U : PyStr) (B : Bleach) (env : Env) (now : str),
      let o1 := index env now (post gioia) contributor init_db in
      let o2 := index env now (post with_password) contributor init_db in
      response o1 = render_template (success_html (Some (lit "Mario Rossi")))
      ∧ length (rows (store o1)) = 1%nat
      ∧ store o2 = init_db
      ∧ (response o2 = redirect index_url ∨ response o2 = render_template form_login_html).
Proof.
  intros with_password. split_and!; [done..|]. intros U B env now. cbn zeta.
  rewrite (proj2 (index_gioia env now init_db)).
  rewrite (index_login env now (post with_password) (lit "x") contributor init_db
             eq_refl eq_refl).
  split_and!; [done..| |].
  - by repeat case_match.
  - repeat case_match; cbn [response]; by eauto.
Qed.

(** The same fields in a JSON body: [request.form] is empty, so that the
    [access_password] among them does not make the request a login, and the
    contribution is stored. *)
Lemma access_password_in_json_body :
  ∀ (U : PyStr) (B : Bleach) (env : Env) (now : str),
    index env now (post_json (<["access_password" := lit "x"]> gioia)) contributor init_db
    = Out (render_template (success_html (Some (lit "Mario Rossi")))) contributor
        {| rows := [Row.mk 1 (lit "gioia") clue_gioia (Some (lit "Mario Rossi")) now];
           seq := 1 |}
        [(GrazieRegistrato, success)].
Proof.
  intros U B env now.
  destruct (index_plain_contribution env now
              (post_json (<["access_password" := lit "x"]> gioia))
              (lit "GIOIA") clue_gioia (lit "Mario Rossi") contributor init_db)
    as [_ ->]; done.
Qed.

(** The honeypot field of the test suite changes nothing. *)
Lemma index_reads_four_fields_witness :
  let with_website : Form := <["website" := lit "http://spam.com"]> gioia in
  @index latin_pystr tag_stripper no_env (lit "2024-06-01 10:00:00")
    (post gioia) contributor init_db
  = @index latin_pystr tag_stripper no_env (lit "2024-06-01 10:00:00")
      (post with_website) contributor init_db.
Proof.
  intros with_website.
  apply (proj1 (@index_reads_four_fields latin_pystr tag_stripper no_env
                  (lit "2024-06-01 10:00:00") (post gioia) (post with_website)
                  contributor init_db eq_refl eq_refl eq_refl eq_refl eq_refl)).
Defined.

(** * Further properties *)

(** ** Trimming *)

Lemma lstrip_spaces (pre s : str) :
  forallb isspace pre = true → lstrip (pre ++ s) = lstrip s.
Proof.
  induction pre as [|c pre IH]; [done|]. cbn [forallb app lstrip].
  intros [-> Hpre]%andb_prop. by apply IH.
Qed.

Lemma lstrip_nil_iff (s : str) : lstrip s = [] ↔ forallb isspace s = true.
Proof.
  induction s as [|c s IH]; [done|]. cbn [lstrip forallb].
  destruct (isspace c); [by rewrite IH|]. split; [done|by intros [=]].
Qed.

Lemma lstrip_app_keep (s t : str) :
  lstrip s ≠ [] → lstrip (s ++ t) = lstrip s ++ t.
Proof.
  induction s as [|c s IH]; [done|]. cbn [lstrip app].
  destruct (isspace c); [apply IH|done].
Qed.

(** White space around a string does not show after [strip]. *)
Lemma strip_padding (pre s post : str) :
  forallb isspace pre = true → forallb isspace post = true →
  strip (pre ++ s ++ post) = strip s.
Proof.
  intros Hpre Hpost. unfold strip, rstrip. rewrite (lstrip_spaces pre) by done.
  destruct (decide (lstrip s = [])) as [Hs|Hs].
  - rewrite Hs. apply lstrip_nil_iff in Hs.
    rewrite (proj2 (lstrip_nil_iff (s ++ post))); [done|].
    by rewrite forallb_app, Hs, Hpost.
  - rewrite lstrip_app_keep, reverse_app by done.
    by rewrite lstrip_spaces by by rewrite forallb_reverse.
Qed.

Lemma strip_idempotent (s : str) : strip (strip s) = strip s.
Proof.
  destruct (strip_spec s) as (pre & post & Hs & Hpre & Hpost & _).
  rewrite Hs at 2. by rewrite strip_padding.
Qed.

(** X1.  The sanitizer and the two validators see trimmed text only: white
    space put before and after a string changes neither what
    [sanitize_input] returns nor the verdict of [is_valid_word] and of
    [is_valid_clue], and trimming twice is trimming once. *)
Theorem padding_is_ignored `{!Bleach} (pre s post : str) :
  forallb isspace pre = true → forallb isspace post = true →
  sanitize_input (Some (pre ++ s ++ post)) = sanitize_input (Some s)
  ∧ is_valid_word (pre ++ s ++ post) = is_valid_word s
  ∧ is_valid_clue (pre ++ s ++ post) = is_valid_clue s
  ∧ strip (strip s) = strip s.
Proof.
  intros Hpre Hpost. unfold is_valid_word, is_valid_clue.
  rewrite !sanitize_input_clean, !strip_padding by done.
  split_and!; [done..|apply strip_idempotent].
Qed.

(** A clue between a tab and two spaces, over [tag_stripper]. *)
Lemma padding_is_ignored_witness :
  is_valid_clue ([9] ++ clue_gioia ++ [32; 32]) = is_valid_clue clue_gioia.
Proof.
  exact (proj1 (proj2 (proj2
    (@padding_is_ignored tag_stripper [9] clue_gioia [32; 32] eq_refl eq_refl)))).
Defined.

(** ** What a request to [/] can do *)

Lemma insert_neq (p f : str) (n : option str) (now : str) (st : Store) :
  insert p f n now st ≠ st.
Proof.
  intros Heq. apply (f_equal (λ st', length (rows st'))) in Heq.
  cbn in Heq. rewrite length_app in Heq. cbn in Heq. lia.
Qed.

Lemma tag_free_clean `{!Bleach} (t : str) : tag_free (clean t) = true.
Proof. unfold tag_free. by rewrite clean_no_delimiter. Qed.

Section IndexCases.
Context `{!PyStr, !Bleach}.
Variable env : Env.

(** Either [index] leaves the store alone, flashes errors only and does not
    show the success page, or it went all the way down: a POST through the
    gate, no login field in [request.form], three bound fields that passed
    every check, a pair the lookup did not find, and the row inserted. *)
Lemma index_cases (now : str) (req : Request) (s : Session) (st : Store) :
  let o := index env now req s st in
  (store o = st ∧ Forall (λ m, m.2 = error) (flashed o)
   ∧ ∀ n, response o ≠ render_template (success_html n))
  ∨ (method req = POST ∧ form req !! "access_password" = None
     ∧ form_access s = true ∧ passes_constraints (formdata req) = true
     ∧ ∃ rw rc rn,
         formdata req !! "parola" = Some rw ∧ formdata req !! "frase_indizio" = Some rc
         ∧ formdata req !! "nome" = Some rn
         ∧ is_valid_word (clean (strip rw)) = true
         ∧ is_valid_clue (clean (strip rc)) = true
         ∧ select_by_parola_frase (lower (clean (strip rw))) (clean (strip rc)) st = None
         ∧ o = Out (render_template (success_html (Some (clean (strip rn))))) s
                 (insert (lower (clean (strip rw))) (clean (strip rc))
                    (Some (clean (strip rn))) now st)
                 [(GrazieRegistrato, success)]).
Proof.
  cbn zeta. unfold index.
  destruct (method req) eqn:Hm; [left; cbn [store flashed response]; split_and!;
     [done|constructor|by unfold index_page; destruct (negb _)]|].
  destruct (form req !! "access_password") as [a|] eqn:Ha.
  { left. rewrite bool_decide_eq_true_2 by by eexists.
    repeat case_match; cbn; split_and!; try done; by repeat constructor. }
  rewrite bool_decide_eq_false_2 by by intros [? ?].
  destruct (form_access s) eqn:Hg; cbn [negb];
    [|left; cbn [store flashed response]; split_and!; [done|constructor|done]].
  destruct (contribution_errors (formdata req)) as [|e errors] eqn:Herr.
  2:{ left. cbn [store flashed response]. split_and!; [done| |by unfold index_page; rewrite Hg].
      apply Forall_fmap, Forall_true. done. }
  pose proof Herr as Hfields. unfold contribution_errors in Hfields.
  apply app_eq_nil in Hfields as [Hw [Hc Hn]%app_eq_nil].
  apply field_errors_nil in Hw as [rw Hw], Hc as [rc Hc], Hn as [rn Hn].
  rewrite Hw, Hc, Hn, !sanitize_input_clean.
  destruct (is_valid_word (clean (strip rw))) eqn:Hvw; cbn [negb];
    [|left; cbn [store flashed response]; split_and!; [done|by repeat constructor|done]].
  destruct (is_valid_clue (clean (strip rc))) eqn:Hvc; cbn [negb];
    [|left; cbn [store flashed response]; split_and!; [done|by repeat constructor|done]].
  destruct (select_by_parola_frase _ _ st) eqn:Hsel;
    [left; cbn [store flashed response]; split_and!; [done|by repeat constructor|done]|].
  right. split_and!; try done.
  - unfold passes_constraints. by rewrite Herr, Hw, Hc, !sanitize_input_clean, Hvw, Hvc.
  - by exists rw, rc, rn.
Qed.

(** X2.  A request to [/] changes the store exactly when it flashes the
    thanks, and exactly when it answers with the success page, on which the
    name shown holds no tag delimiter; and it does so exactly for a POST
    through the contributor gate with no [access_password] field in
    [request.form], whose fields, as the form binds them from
    [request.form] or from a JSON body, pass the constraints and whose pair
    (lower-cased word, clue) is not stored yet. *)
Theorem index_stores_iff_thanks (now : str) (req : Request) (s : Session) (st : Store) :
  let o := index env now req s st in
  (store o ≠ st ↔ (GrazieRegistrato, success) ∈ flashed o)
  ∧ (store o ≠ st ↔
       ∃ n, response o = render_template (success_html (Some n)) ∧ tag_free n = true)
  ∧ (store o ≠ st ↔
       method req = POST ∧ form req !! "access_password" = None
       ∧ form_access s = true ∧ passes_constraints (formdata req) = true
       ∧ ∃ p f, sanitize_input (formdata req !! "parola") = Some p
           ∧ sanitize_input (formdata req !! "frase_indizio") = Some f
           ∧ ¬ stored (lower p) f st).
Proof.
  cbn zeta.
  destruct (index_cases now req s st)
    as [(Hst & Hfl & Hresp)|(Hm & Ha & Hg & Hpass & rw & rc & rn & Hw & Hc & Hn
                               & Hvw & Hvc & Hsel & Ho)].
  - cbn zeta in *. rewrite Hst. split_and!.
    + split; [done|]. intros Hin. rewrite Forall_forall in Hfl.
      by specialize (Hfl _ Hin).
    + split; [done|]. intros (n & Hn & _). by destruct (Hresp (Some n)).
    + split; [done|]. intros (Hm & Ha & Hg & Hpass & p & f & Hp & Hf & Hnew).
      destruct (index_contribution env now req s st Hm Ha Hg Hpass)
        as (p' & f' & n' & Hp' & Hf' & _ & Hindex).
      rewrite Hp in Hp'. rewrite Hf in Hf'. injection Hp' as <-. injection Hf' as <-.
      apply select_by_parola_frase_None in Hnew.
      rewrite Hindex, Hnew in Hst. cbn [store] in Hst. by apply insert_neq in Hst.
  - cbn zeta in Ho. rewrite Ho. cbn [store flashed response].
    pose proof (insert_neq (lower (clean (strip rw))) (clean (strip rc))
                  (Some (clean (strip rn))) now st) as Hneq.
    split_and!.
    + split; [intros _; by apply list_elem_of_singleton|done].
    + split; [intros _|done]. eexists. split; [done|apply tag_free_clean].
    + split; [intros _|done]. split_and!; try done.
      exists (clean (strip rw)), (clean (strip rc)).
      rewrite Hw, Hc, !sanitize_input_clean. split_and!; [done..|].
      by apply select_by_parola_frase_None.
Qed.
End IndexCases.

(** ** The two gates *)

Section Gates.
Context `{!PyStr, !Bleach}.
Variable env : Env.

(** [index] leaves the session alone unless it is a login with a string
    that, sanitized, is the form secret. *)
Lemma index_session_cases (now : str) (req : Request) (s : Session) (st : Store) :
  session (index env now req s st) = s
  ∨ (method req = POST
     ∧ ∃ submitted, form req !! "access_password" = Some submitted
         ∧ sanitize_input (Some submitted) = Some (get_form_password env)
         ∧ index env now req s st = Out (redirect index_url) (grant_form_access s) st []).
Proof.
  unfold index. destruct (method req) eqn:Hm; [by left|].
  destruct (form req !! "access_password") as [a|] eqn:Ha.
  - rewrite bool_decide_eq_true_2 by by eexists.
    rewrite (formdata_field req _ _ Ha), Ha.
    destruct (DataRequired (Some a)); [|by left].
    destruct (bool_decide (sanitize_input (Some a) = Some (get_form_password env))) eqn:Hpw;
      [|by left].
    right. split; [done|]. exists a. by apply bool_decide_eq_true in Hpw.
  - left. rewrite bool_decide_eq_false_2 by by intros [? ?]. by repeat case_match.
Qed.

Lemma admin_session_cases (req : Request) (s : Session) (st : Store) :
  (session (admin env req s st) = s ∧ store (admin env req s st) = st)
  ∨ (method req = POST
     ∧ ∃ submitted, formdata req !! "password" = Some submitted
         ∧ sanitize_input (Some submitted) = Some (get_admin_password env)
         ∧ admin env req s st = Out (redirect admin_url) (grant_admin s) st []).
Proof.
  unfold admin. destruct (method req) eqn:Hm; [left; by destruct (negb _)|].
  destruct (formdata req !! "password") as [a|] eqn:Ha; [|by left].
  destruct (DataRequired (Some a)); [|by left].
  destruct (bool_decide (sanitize_input (Some a) = Some (get_admin_password env))) eqn:Hpw;
    [|by left].
  right. split; [done|]. exists a. by apply bool_decide_eq_true in Hpw.
Qed.

Lemma delete_submission_cases (i : Z) (s : Session) (st : Store) :
  session (delete_submission i s st) = s
  ∧ (store (delete_submission i s st) = st
     ∨ (admin_logged_in s = true ∧ (0 < i)%Z
        ∧ store (delete_submission i s st) = delete_by_id i st)).
Proof.
  unfold delete_submission. destruct (admin_logged_in s); cbn [negb]; [|by split; [|left]].
  destruct (Z.leb_spec i 0); [by split; [|left]|].
  destruct (sqlite_max_integer <? i)%Z; [by split; [|left]|].
  destruct (select_by_id i st); cbn [session store]; split; auto.
Qed.

(** X3.  No row is added by a request made without the contributor flag,
    no row goes away by a request made without the admin flag, and a request
    made with neither leaves the store as it was: this holds for every
    route and every argument. *)
Theorem no_write_without_gate (c : Call) (s : Session) (st : Store) :
  let o := handle env c s st in
  (form_access s = false → ∀ r, r ∈ rows (store o) → r ∈ rows st)
  ∧ (admin_logged_in s = false → ∀ r, r ∈ rows st → r ∈ rows (store o))
  ∧ (form_access s = false → admin_logged_in s = false → store o = st).
Proof.
  cbn zeta. destruct c as [now req|req| |i| |]; cbn [handle].
  - destruct (index_cases env now req s st)
      as [(Hst & _)|(_ & _ & Hg & _ & rw & rc & rn & _ & _ & _ & _ & _ & _ & Ho)];
      cbn zeta in *.
    + rewrite Hst. by split_and!.
    + rewrite Ho. cbn [store insert rows]. split_and!; [congruence| |congruence].
      intros _ r Hr. apply elem_of_app. by left.
  - destruct (admin_session_cases req s st) as [[_ ->]|(_ & a & _ & _ & ->)]; by split_and!.
  - unfold export_csv. destruct (negb _); by split_and!.
  - destruct (delete_submission_cases i s st) as [_ [->|(Hg & _ & ->)]]; [by split_and!|].
    split_and!; [|congruence..]. intros _ r [_ Hr]%list_elem_of_filter. done.
  - by split_and!.
  - by split_and!.
Qed.

(** X4.  A gate that is closed opens in one way only: the contributor flag
    by a POST to [/] whose [access_password], a field of [request.form],
    is the form secret once sanitized, the admin flag by a POST to [/admin]
    whose [password], as the form binds it, is the admin secret once
    sanitized.  No other request sets a flag. *)
Theorem flag_set_only_by_secret (c : Call) (s : Session) (st : Store) :
  let o := handle env c s st in
  (form_access s = false → form_access (session o) = true →
     ∃ now req submitted, c = call_index now req ∧ method req = POST
       ∧ form req !! "access_password" = Some submitted
       ∧ sanitize_input (Some submitted) = Some (get_form_password env))
  ∧ (admin_logged_in s = false → admin_logged_in (session o) = true →
     ∃ req submitted, c = call_admin req ∧ method req = POST
       ∧ formdata req !! "password" = Some submitted
       ∧ sanitize_input (Some submitted) = Some (get_admin_password env)).
Proof.
  cbn zeta. destruct c as [now req|req| |i| |]; cbn [handle].
  - destruct (index_session_cases now req s st) as [->|(Hm & a & Ha & Hpw & ->)];
      cbn [session grant_form_access form_access admin_logged_in];
      split; try congruence.
    intros _ _. by exists now, req, a.
  - destruct (admin_session_cases req s st) as [[-> _]|(Hm & a & Ha & Hpw & ->)];
      cbn [session grant_admin form_access admin_logged_in];
      split; try congruence.
    intros _ _. by exists req, a.
  - unfold export_csv. destruct (negb _); cbn [session]; split; congruence.
  - rewrite (proj1 (delete_submission_cases i s st)). split; congruence.
  - cbn. split; congruence.
  - cbn. split; congruence.
Qed.
End Gates.

Section Logout.
Context `{!PyStr, !Bleach}.
Variable env : Env.

(** X5.  The two gates are independent: a request to [/] or to [/logout]
    never changes the admin flag, a request to [/admin] or to
    [/admin/logout] never changes the contributor flag, the export and the
    delete never change the session; each logout clears its own flag and
    leaves the store as it was. *)
Theorem gates_are_independent (c : Call) (s : Session) (st : Store) :
  let o := handle env c s st in
  match c with
  | call_index _ _ | call_form_logout => admin_logged_in (session o) = admin_logged_in s
  | call_admin _ | call_admin_logout => form_access (session o) = form_access s
  | call_export_csv | call_delete_submission _ => session o = s
  end
  ∧ (c = call_form_logout → form_access (session o) = false ∧ store o = st)
  ∧ (c = call_admin_logout → admin_logged_in (session o) = false ∧ store o = st).
Proof.
  cbn zeta. destruct c as [now req|req| |i| |]; cbn [handle]; (split; [|by split]).
  - by destruct (index_session_cases env now req s st) as [->|(_ & a & _ & _ & ->)].
  - by destruct (admin_session_cases env req s st) as [[-> _]|(_ & a & _ & _ & ->)].
  - unfold export_csv. by destruct (negb _).
  - apply delete_submission_cases.
  - done.
  - done.
Qed.

(** X6.  A logout takes the access back.  With the session [/logout]
    leaves, no request to [/] stores anything, and a POST that is not a
    login is answered with the redirect to the login page; with the session
    [/admin/logout] leaves, the export and the delete answer 403 and
    [/admin] shows the login form. *)
Theorem logout_revokes_access
    (now : str) (req : Request) (i : Z) (s : Session) (st st' : Store) :
  let s1 := session (form_logout s st) in
  let s2 := session (admin_logout s st) in
  store (index env now req s1 st') = st'
  ∧ (method req = POST → form req !! "access_password" = None →
       index env now req s1 st' = Out (redirect index_url) s1 st' [])
  ∧ export_csv s2 st' = Out (abort 403) s2 st' []
  ∧ delete_submission i s2 st' = Out (abort 403) s2 st' []
  ∧ admin env {| method := GET; form := form req; json := json req |} s2 st'
    = Out (render_template admin_login_html) s2 st' [].
Proof.
  cbn zeta. split_and!; try done.
  - destruct (index_cases env now req (session (form_logout s st)) st')
      as [(Hst & _)|(_ & _ & Hg & _)]; [done|discriminate Hg].
  - intros Hm Ha. unfold index. rewrite Hm, Ha.
    by rewrite bool_decide_eq_false_2 by by intros [? ?].
Qed.
End Logout.

(** After [/logout] the contribution of the scenario is sent back to the
    login page. *)
Lemma logout_revokes_access_witness :
  let s1 := session (form_logout contributor init_db) in
  @index latin_pystr tag_stripper no_env (lit "2024-06-01 10:00:00")
    (post gioia) s1 init_db
  = Out (redirect index_url) s1 init_db [].
Proof.
  intros s1.
  apply (proj1 (proj2 (@logout_revokes_access latin_pystr tag_stripper no_env
                         (lit "2024-06-01 10:00:00") (post gioia)
                         1 contributor init_db init_db))); reflexivity.
Defined.

(** ** Deleting *)

Lemma select_by_id_found (i : Z) (st : Store) (r : Row.t) :
  select_by_id i st = Some r → r ∈ rows st ∧ Row.id r = i.
Proof.
  intros [Hin Hid]%find_some. apply bool_decide_eq_true in Hid.
  by rewrite list_elem_of_In.
Qed.

Lemma select_by_id_None_inv (i : Z) (st : Store) :
  select_by_id i st = None → ∀ r, r ∈ rows st → Row.id r ≠ i.
Proof.
  intros Hfind r Hin%list_elem_of_In.
  apply (find_none _ _ Hfind) in Hin. by apply bool_decide_eq_false in Hin.
Qed.

Lemma delete_by_id_gone (i : Z) (st : Store) (r : Row.t) :
  r ∈ rows (delete_by_id i st) → r ∈ rows st ∧ Row.id r ≠ i.
Proof. cbn [delete_by_id rows]. rewrite list_elem_of_filter. tauto. Qed.

Lemma delete_by_id_neq (i : Z) (st : Store) (r : Row.t) :
  r ∈ rows st → Row.id r = i → delete_by_id i st ≠ st.
Proof.
  intros Hin Hid Heq. rewrite <- Heq in Hin. by apply delete_by_id_gone in Hin as [_ ?].
Qed.

(** X7.  For an admin, [delete_submission] answers every id with the
    redirect to the admin page and one flashed message, never with an error
    status: an id that is zero or negative gets "Errore durante
    l'eliminazione" (the [abort(400)] is caught by the handler's own
    [except]) and changes nothing, and so does an id beyond 64 bits (the
    [OverflowError] of the lookup is caught likewise).  No row is ever added,
    the counter keeps its value, no row with a positive id asked for is
    left in a table of SQLite, and "Contributo eliminato" is flashed exactly
    when the store has changed. *)
Theorem delete_submission_always_redirects
    (submission_id : Z) (s : Session) (st : Store) :
  admin_logged_in s = true →
  let o := delete_submission submission_id s st in
  response o = redirect admin_url ∧ session o = s ∧ seq (store o) = seq st
  ∧ (∃ m, flashed o = [m])
  ∧ ((submission_id ≤ 0)%Z →
       store o = st ∧ flashed o = [(ErroreEliminazione, error)])
  ∧ ((sqlite_max_integer < submission_id)%Z →
       store o = st ∧ flashed o = [(ErroreEliminazione, error)])
  ∧ (∀ r, r ∈ rows (store o) → r ∈ rows st)
  ∧ ((0 < submission_id)%Z → storable_ids st →
       ∀ r, r ∈ rows (store o) → Row.id r ≠ submission_id)
  ∧ (flashed o = [(ContributoEliminato, success)] ↔ store o ≠ st).
Proof.
  intros Hgate. cbn zeta. unfold delete_submission. rewrite Hgate. cbn [negb].
  destruct (Z.leb_spec submission_id 0) as [Hle|Hgt].
  { cbn. split_and!; try done; [by eexists|lia]. }
  destruct (Z.ltb_spec sqlite_max_integer submission_id) as [Hbig|Hfit].
  { cbn [response session store flashed]. split_and!; try done; [by eexists|].
    intros _ Hst r Hr. unfold storable_ids in Hst. rewrite Forall_forall in Hst.
    specialize (Hst r Hr). lia. }
  destruct (select_by_id submission_id st) as [r|] eqn:Hsel; cbn.
  - apply select_by_id_found in Hsel as [Hin Hid].
    split_and!; try done; try lia; try (by eexists).
    + intros r' Hr'. by apply (delete_by_id_gone submission_id st).
    + intros _ _ r' Hr'. by apply (delete_by_id_gone submission_id st).
    + split; [intros _|done]. by apply (delete_by_id_neq _ _ r).
  - pose proof (select_by_id_None_inv _ _ Hsel) as Hnone.
    split_and!; try done; try lia; by eexists.
Qed.

(** Id 0, which the route lets through, is answered with the error flash. *)
Lemma delete_submission_always_redirects_witness :
  let s := {| form_access := false; admin_logged_in := true; permanent := true |} in
  delete_submission 0 s init_db
  = Out (redirect admin_url) s init_db [(ErroreEliminazione, error)].
Proof.
  intros s.
  destruct (delete_submission_always_redirects 0 s init_db eq_refl)
    as (Hr & Hs & _ & _ & Hzero & _).
  destruct Hzero as [Hst Hfl]; [done|].
  destruct (delete_submission 0 s init_db) as [r' s' st' fl'].
  cbn in Hr, Hs, Hst, Hfl. by subst.
Defined.

(** X8.  Deleting is idempotent: for an admin and a positive id, a second
    delete of the same id, right after the first, leaves the store as the
    first left it and fails softly: it finds nothing and flashes "Contributo
    non trovato" or, for an id beyond 64 bits, it cannot look the id up and
    flashes "Errore durante l'eliminazione" as the first did. *)
Theorem delete_submission_twice (submission_id : Z) (s : Session) (st : Store) :
  admin_logged_in s = true → (0 < submission_id)%Z →
  let o1 := delete_submission submission_id s st in
  let o2 := delete_submission submission_id (session o1) (store o1) in
  o2 = Out (redirect admin_url) s (store o1)
         [(if (submission_id <=? sqlite_max_integer)%Z then ContributoNonTrovato
           else ErroreEliminazione, error)]
  ∧ ((sqlite_max_integer < submission_id)%Z → o1 = o2).
Proof.
  intros Hgate Hpos. cbn zeta.
  rewrite (proj1 (delete_submission_cases submission_id s st)).
  unfold delete_submission. rewrite Hgate. cbn [negb].
  rewrite (proj2 (Z.leb_gt _ _) Hpos).
  destruct (Z.ltb_spec sqlite_max_integer submission_id) as [Hbig|Hfit].
  { by rewrite (proj2 (Z.leb_gt _ _) Hbig). }
  rewrite (proj2 (Z.leb_le _ _) Hfit). split; [|intros ?; lia].
  assert (Hgone : ∀ st', (∀ r, r ∈ rows st' → Row.id r ≠ submission_id) →
            match select_by_id submission_id st' with
            | Some _ => Out (redirect admin_url) s (delete_by_id submission_id st')
                          [(ContributoEliminato, success)]
            | None => Out (redirect admin_url) s st' [(ContributoNonTrovato, error)]
            end = Out (redirect admin_url) s st' [(ContributoNonTrovato, error)]).
  { intros st' Hnone. by rewrite (select_by_id_None _ _ Hnone). }
  destruct (select_by_id submission_id st) eqn:Hsel; cbn [store]; apply Hgone.
  - intros r Hr. by apply (delete_by_id_gone submission_id st).
  - by apply select_by_id_None_inv.
Qed.

(** Row 1 of a table of two, deleted twice. *)
Lemma delete_submission_twice_witness :
  let s := {| form_access := false; admin_logged_in := true; permanent := true |} in
  let r1 := Row.mk 1 (lit "gioia") clue_gioia (Some (lit "Mario")) (lit "2024") in
  let r2 := Row.mk 2 (lit "amore") clue_gioia None (lit "2024") in
  let st := {| rows := [r1; r2]; seq := 2 |} in
  delete_submission 1 s (store (delete_submission 1 s st))
  = Out (redirect admin_url) s {| rows := [r2]; seq := 2 |} [(ContributoNonTrovato, error)].
Proof.
  intros s r1 r2 st. exact (proj1 (delete_submission_twice 1 s st eq_refl eq_refl)).
Defined.

(** ** Ids *)

Lemma StronglySorted_filter {A : Type} (R : relation A) (P : A → Prop)
    `{∀ x, Decision (P x)} (l : list A) :
  StronglySorted R l → StronglySorted R (filter P l).
Proof.
  induction 1 as [|x l Hl IH Hx]; [constructor|].
  rewrite filter_cons. destruct (decide (P x)); [|done].
  constructor; [done|]. rewrite Forall_forall in *.
  intros y [_ Hy]%list_elem_of_filter. by apply Hx.
Qed.

Lemma ids_increasing_insert (p f : str) (n : option str) (now : str) (st : Store) :
  ids_increasing st → ids_increasing (insert p f n now st).
Proof.
  intros [Hsorted Hle]. unfold ids_increasing, insert. cbn [rows seq].
  pose proof (max_rowid_nonneg (rows st)) as Hmax. split.
  - apply StronglySorted_app_2; [|done|by repeat constructor].
    intros r1 r2 Hr1 ->%list_elem_of_singleton. cbn [Row.id].
    rewrite Forall_forall in Hle. specialize (Hle _ Hr1). lia.
  - apply Forall_app. split.
    + eapply Forall_impl; [exact Hle|]. intros r Hr. cbn beta in *. lia.
    + apply Forall_singleton. cbn [Row.id]. lia.
Qed.

Lemma ids_increasing_delete (i : Z) (st : Store) :
  ids_increasing st → ids_increasing (delete_by_id i st).
Proof.
  intros [Hsorted Hle]. unfold ids_increasing, delete_by_id. cbn [rows seq]. split.
  - by apply StronglySorted_filter.
  - rewrite !Forall_forall in *. intros r [_ Hr]%list_elem_of_filter. by apply Hle.
Qed.

Section Ids.
Context `{!PyStr, !Bleach}.
Variable env : Env.

(** X9.  AUTOINCREMENT as the handlers use it.  In the table [init_db]
    creates and in every store the requests make of it, ids grow along the
    table, are positive and stay below the counter; no request lowers the
    counter, and a row a request adds gets an id above the counter it found:
    the id of a deleted row is never given again. *)
Theorem ids_never_reused :
  ids_increasing init_db
  ∧ (∀ c s st, ids_increasing st →
       let st' := store (handle env c s st) in
       ids_increasing st' ∧ (seq st ≤ seq st')%Z
       ∧ ∀ r, r ∈ rows st' → r ∈ rows st ∨ (seq st < Row.id r)%Z)
  ∧ (∀ cs, ids_increasing (run env cs init_db)).
Proof.
  assert (Hinit : ids_increasing init_db) by (split; constructor).
  assert (Hstep : ∀ c s st, ids_increasing st →
            ids_increasing (store (handle env c s st))).
  { intros c s st Hst.
    destruct (handle_store env c s st)
      as [->|[(w & f & n & now & _ & _ & ->)|[i ->]]]; [done| |].
    - by apply ids_increasing_insert.
    - by apply ids_increasing_delete. }
  split_and!; [done| |intros cs; by apply run_preserves].
  intros c s st Hst. cbn zeta. split; [by apply Hstep|].
  destruct (handle_store env c s st)
    as [->|[(w & f & n & now & _ & _ & ->)|[i ->]]].
  - split; [lia|]. by left.
  - cbn [insert seq rows]. split; [lia|].
    intros r [Hr| ->%list_elem_of_singleton]%elem_of_app; [by left|].
    right. cbn [Row.id]. lia.
  - cbn [delete_by_id seq rows]. split; [lia|].
    intros r [_ Hr]%list_elem_of_filter. by left.
Qed.

End Ids.


(** ** What is in the table *)

Lemma letter_not_space (c : N) : letter c = true → isspace c = false.
Proof.
  intros Hl. apply not_true_is_false. intros Hs.
  unfold isspace in Hs. unfold letter, accented, ascii_lower, ascii_upper in Hl.
  rewrite !orb_true_iff, !andb_true_iff, !N.leb_le, !N.eqb_eq in Hs.
  rewrite !orb_true_iff, !andb_true_iff, !N.leb_le, !bool_decide_eq_true in Hl.
  destruct Hl as [[Hl|Hl]|[Hl|Hl]]; [lia|lia| |].
  - unfold accented_lower in Hl. enumerate Hl; subst c; lia.
  - unfold accented_upper in Hl. enumerate Hl; subst c; lia.
Qed.

Lemma isspace_lower_char (c : N) : isspace (lower_char c) = isspace c.
Proof.
  unfold lower_char.
  destruct (ascii_upper c || bool_decide (c ∈ accented_upper)) eqn:Hup; [|done].
  rewrite (letter_not_space (c + 32)) by apply (lower_char_upper c Hup).
  symmetry. apply letter_not_space. unfold letter, accented.
  apply orb_prop in Hup as [->| ->]; by rewrite ?orb_true_r.
Qed.

Lemma lstrip_lower (s : str) : lstrip (map lower_char s) = map lower_char (lstrip s).
Proof.
  induction s as [|c s IH]; [done|]. cbn [map lstrip].
  rewrite isspace_lower_char. by destruct (isspace c).
Qed.

Lemma reverse_map {A B : Type} (f : A → B) (l : list A) :
  reverse (map f l) = map f (reverse l).
Proof.
  induction l as [|x l IH]; [done|]. cbn [map].
  by rewrite !reverse_cons, IH, map_app.
Qed.

Lemma strip_lower (s : str) : strip (map lower_char s) = map lower_char (strip s).
Proof. unfold strip, rstrip. by rewrite lstrip_lower, reverse_map, lstrip_lower, reverse_map. Qed.

(** The lower-cased form of a valid word is a valid word. *)
Lemma is_valid_word_lower `{!PyStr} (w : str) :
  is_valid_word w = true → is_valid_word (lower w) = true.
Proof.
  intros Hw. rewrite (proj1 (lower_valid_word w Hw)).
  rewrite is_valid_word_forallb in *. rewrite strip_lower.
  apply andb_prop in Hw as [Hne Hall]. rewrite map_lower_char_word by done.
  rewrite andb_true_r. destruct (strip w); [done|]. done.
Qed.

Lemma word_chars_tag_free (l : str) : forallb word_char l = true → tag_free l = true.
Proof.
  unfold tag_free. induction l as [|c l IH]; [done|]. cbn [forallb existsb].
  intros [Hc Hl]%andb_prop. specialize (IH Hl). apply negb_true_iff in IH. rewrite IH.
  rewrite orb_false_r. apply negb_true_iff, not_true_is_false.
  unfold tag_delimiter. rewrite orb_true_iff, !N.eqb_eq.
  intros [->| ->]; by vm_compute in Hc.
Qed.

Section StoredRows.
Context `{!PyStr, !Bleach}.
Variable env : Env.

Lemma row_checked_insert (rw rc rn now : str) (st : Store) :
  is_valid_word (clean (strip rw)) = true →
  is_valid_clue (clean (strip rc)) = true →
  Forall row_checked (rows st) →
  Forall row_checked
    (rows (insert (lower (clean (strip rw))) (clean (strip rc))
             (Some (clean (strip rn))) now st)).
Proof.
  intros Hw Hc Hst. cbn [insert rows]. apply Forall_app. split; [done|].
  apply Forall_singleton. unfold row_checked. cbn [Row.parola Row.frase_indizio Row.nome].
  pose proof (is_valid_word_lower _ Hw) as Hlow.
  split_and!; [done|done| |apply tag_free_clean|].
  - by apply word_chars_tag_free, is_valid_word_chars.
  - eexists. split; [done|apply tag_free_clean].
Qed.

Lemma handle_row_checked (c : Call) (s : Session) (st : Store) :
  Forall row_checked (rows st) → Forall row_checked (rows (store (handle env c s st))).
Proof.
  intros Hst. destruct c as [now req|req| |i| |]; cbn [handle]; try done.
  - destruct (index_cases env now req s st)
      as [(-> & _)|(_ & _ & _ & _ & rw & rc & rn & _ & _ & _ & Hw & Hc & _ & Ho)];
      [done|].
    cbn zeta in Ho. rewrite Ho. cbn [store]. by apply row_checked_insert.
  - by destruct (admin_session_cases env req s st) as [[_ ->]|(_ & a & _ & _ & ->)].
  - unfold export_csv. by destruct (negb _).
  - destruct (delete_submission_cases i s st) as [_ [->|(_ & _ & ->)]]; [done|].
    cbn [delete_by_id rows]. rewrite !Forall_forall in *.
    intros r [_ Hr]%list_elem_of_filter. by apply Hst.
Qed.

(** X11.  Only checked text gets into the table.  In every store the
    requests make of the one [init_db] creates, every row holds a word that
    [is_valid_word] accepts as it is stored, a clue that [is_valid_clue]
    accepts, and a name that is not null; and none of the three holds a [<]
    or a [>].  Every request keeps this so. *)
Theorem stored_rows_are_checked :
  (∀ c s st, Forall row_checked (rows st) →
     Forall row_checked (rows (store (handle env c s st))))
  ∧ (∀ cs, Forall row_checked (rows (run env cs init_db))).
Proof.
  split; [apply handle_row_checked|].
  intros cs. apply (run_preserves env (λ st, Forall row_checked (rows st)));
    [apply handle_row_checked|constructor].
Qed.
End StoredRows.

(** ** The dashboard and the export *)

Lemma str_ltb_asymmetric (a b : str) : str_ltb a b = true → str_ltb b a = false.
Proof.
  revert b. induction a as [|x a IH]; intros [|y b]; cbn [str_ltb]; try done.
  rewrite !orb_true_iff, !andb_true_iff, !N.ltb_lt, !N.eqb_eq.
  intros [Hlt|[-> Hab]]; apply orb_false_iff.
  - split; [apply N.ltb_ge; lia|]. apply andb_false_iff. left. apply N.eqb_neq. lia.
  - split; [apply N.ltb_irrefl|]. rewrite N.eqb_refl. by apply IH.
Qed.

(** If [a] comes before [c], any [b] comes after [a] or before [c]. *)
Lemma str_ltb_between (a b c : str) :
  str_ltb a c = true → str_ltb a b = true ∨ str_ltb b c = true.
Proof.
  revert b c. induction a as [|x a IH]; intros [|z b] [|y c]; cbn [str_ltb];
    try done; try (by left); try (by right).
  rewrite !orb_true_iff, !andb_true_iff, !N.ltb_lt, !N.eqb_eq.
  intros [Hlt|[-> Hac]].
  - destruct (N.lt_ge_cases x z); [by left; left|]. right. left. lia.
  - destruct (N.lt_trichotomy y z) as [?|[->|?]]; [by left; left| |by right; left].
    destruct (IH b c Hac); [left|right]; by right.
Qed.

Lemma not_older_transitive (a b c : str) :
  str_ltb a b = false → str_ltb b c = false → str_ltb a c = false.
Proof.
  intros Hab Hbc. apply not_true_is_false. intros Hac.
  destruct (str_ltb_between a b c Hac); congruence.
Qed.

Lemma insert_desc_newest_first (r : Row.t) (l : list Row.t) :
  newest_first l → newest_first (insert_desc r l).
Proof.
  unfold newest_first. induction 1 as [|r' l Hl IH Hr']; cbn [insert_desc].
  { by repeat constructor. }
  destruct (str_ltb (Row.timestamp r) (Row.timestamp r')) eqn:Hlt.
  - constructor; [done|]. rewrite insert_desc_Permutation.
    constructor; [by apply str_ltb_asymmetric|done].
  - constructor; [by constructor|]. constructor; [done|].
    eapply Forall_impl; [exact Hr'|]. intros x Hx. cbn beta in *.
    by eapply not_older_transitive.
Qed.

Lemma order_by_timestamp_desc_newest_first (l : list Row.t) :
  newest_first (order_by_timestamp_desc l).
Proof.
  induction l as [|r l IH]; [constructor|].
  unfold order_by_timestamp_desc. cbn [foldr]. by apply insert_desc_newest_first.
Qed.

(** X12.  For an admin, the dashboard and the export list the same rows in
    the same order: every stored row once, none older than a row listed
    after it.  The export puts the header first and one line of four
    columns per row, and its name column is never empty; neither route
    changes the session or the store. *)
Theorem listing_is_newest_first `{!PyStr, !Bleach}
    (env : Env) (fields : Form) (body : option Form) (s : Session) (st : Store) :
  admin_logged_in s = true →
  ∃ listing,
    admin env {| method := GET; form := fields; json := body |} s st
    = Out (render_template (admin_html listing)) s st []
    ∧ export_csv s st = Out (csv_attachment (csv_header :: map csv_row listing)) s st []
    ∧ listing ≡ₚ rows st
    ∧ newest_first listing
    ∧ length (csv_header :: map csv_row listing) = S (length (rows st))
    ∧ Forall (λ line, length line = 4%nat ∧ ∃ c name, line !! 2%nat = Some (c :: name))
        (csv_header :: map csv_row listing).
Proof.
  intros Hgate. exists (order_by_timestamp_desc (rows st)).
  unfold admin, export_csv. cbn [method]. rewrite Hgate. cbn [negb].
  split_and!; [done|done|apply order_by_timestamp_desc_Permutation
              |apply order_by_timestamp_desc_newest_first| |].
  - cbn [length]. by rewrite length_map, order_by_timestamp_desc_Permutation.
  - constructor; [split; [done|by eexists _, _]|].
    apply Forall_forall. intros line (r & <- & _)%list_elem_of_In%in_map_iff.
    split; [done|]. cbn. destruct (Row.nome r) as [[|c n]|]; by eexists _, _.
Qed.

(** Two rows stored out of order, one of them without a name. *)
Lemma listing_is_newest_first_witness :
  let boss := {| form_access := false; admin_logged_in := true; permanent := true |} in
  let r1 := Row.mk 1 (lit "gioia") clue_gioia None (lit "2024-06-01 10:00:00") in
  let r2 := Row.mk 2 (lit "amore") clue_gioia (Some (lit "Anna")) (lit "2024-06-02 09:30:00") in
  let st := {| rows := [r1; r2]; seq := 2 |} in
  ∃ listing, export_csv boss st
             = Out (csv_attachment (csv_header :: map csv_row listing)) boss st []
    ∧ newest_first listing.
Proof.
  intros boss r1 r2 st.
  destruct (@listing_is_newest_first latin_pystr tag_stripper no_env ∅ None boss st eq_refl)
    as (listing & _ & Hexport & _ & Hsorted & _).
  exists listing. split; [exact Hexport|exact Hsorted].
Defined.

(** ** The messages of the contribution form *)

Lemma strip_nonempty_length (v : str) : strip v ≠ [] → (1 ≤ length v)%nat.
Proof. destruct v; [done|cbn; lia]. Qed.

(** One field: no message, the "required" message or the "length" message,
    and which it is. *)
Lemma field_errors_spec (required too_long : Message) (min max : nat) (data : option str) :
  (field_errors required too_long min max data = []
   ∧ ∃ v, data = Some v ∧ strip v ≠ [] ∧ (min ≤ length v ≤ max)%nat)
  ∨ (field_errors required too_long min max data = [required]
     ∧ ∀ v, data = Some v → strip v = [])
  ∨ (field_errors required too_long min max data = [too_long]
     ∧ ∃ v, data = Some v ∧ strip v ≠ [] ∧ ¬ (min ≤ length v ≤ max)%nat).
Proof.
  unfold field_errors. destruct data as [v|]; [|right; left; by split].
  rewrite DataRequired_Some. destruct (decide (strip v = [])) as [Hb|Hb].
  { right. left. rewrite bool_decide_eq_true_2 by done. split; [done|]. by intros ? [= <-]. }
  rewrite bool_decide_eq_false_2 by done. cbn [negb]. unfold Length.
  destruct (Nat.leb_spec min (length v)), (Nat.leb_spec (length v) max); cbn [andb negb].
  - left. split; [done|]. exists v. split_and!; [done..|lia].
  - right. right. split; [done|]. exists v. split_and!; [done..|lia].
  - right. right. split; [done|]. exists v. split_and!; [done..|lia].
  - right. right. split; [done|]. exists v. split_and!; [done..|lia].
Qed.

Lemma field_errors_nil_iff (required too_long : Message) (min max : nat)
    (data : option str) :
  field_errors required too_long min max data = [] ↔
  ∃ v, data = Some v ∧ strip v ≠ [] ∧ (min ≤ length v ≤ max)%nat.
Proof.
  destruct (field_errors_spec required too_long min max data)
    as [[-> Hv]|[[-> Hv]|[-> (v & Hv & Hb & Hl)]]].
  - done.
  - split; [done|]. intros (v & Hd & Hb & _). by apply Hv in Hd.
  - split; [done|]. intros (v' & Hd & _ & Hl'). by simplify_eq.
Qed.

Lemma field_errors_too_long_iff (required too_long : Message) (min max : nat)
    (data : option str) :
  required ≠ too_long →
  too_long ∈ field_errors required too_long min max data ↔
  ∃ v, data = Some v ∧ strip v ≠ [] ∧ ¬ (min ≤ length v ≤ max)%nat.
Proof.
  intros Hne.
  destruct (field_errors_spec required too_long min max data)
    as [[-> (v & Hv & Hb & Hl)]|[[-> Hv]|[-> Hv]]].
  - split; [by intros ?%elem_of_nil|]. intros (v' & Hd & _ & Hl'). by simplify_eq.
  - split; [by intros ?%list_elem_of_singleton|].
    intros (v & Hd & Hb & _). by apply Hv in Hd.
  - split; [done|]. intros _. by apply list_elem_of_singleton.
Qed.

Lemma field_errors_elem (required too_long : Message) (min max : nat)
    (data : option str) (m : Message) :
  m ∈ field_errors required too_long min max data → m = required ∨ m = too_long.
Proof.
  destruct (field_errors_spec required too_long min max data)
    as [[-> _]|[[-> _]|[-> _]]].
  - by intros ?%elem_of_nil.
  - intros ?%list_elem_of_singleton. by left.
  - intros ?%list_elem_of_singleton. by right.
Qed.

Lemma field_errors_length (required too_long : Message) (min max : nat)
    (data : option str) :
  (length (field_errors required too_long min max data) ≤ 1)%nat.
Proof.
  destruct (field_errors_spec required too_long min max data)
    as [[-> _]|[[-> _]|[-> _]]]; cbn [length]; lia.
Qed.

(** X13.  What the messages of [ContributionForm] mean.  The form validates
    exactly when the three fields are posted, none is blank, the word and
    the name have at most 50 characters and the clue between 10 and 200.
    Each field yields at most one message, so at most three are flashed.
    The length message of the word means a word that is not blank and longer
    than 50 characters (its lower bound of 1 never fires), that of the clue
    a clue that is not blank and shorter than 10 or longer than 200. *)
Theorem contribution_errors_meaning (fields : Form) :
  (contribution_errors fields = [] ↔
     ∃ w c n, fields !! "parola" = Some w ∧ fields !! "frase_indizio" = Some c
       ∧ fields !! "nome" = Some n
       ∧ strip w ≠ [] ∧ strip c ≠ [] ∧ strip n ≠ []
       ∧ (length w ≤ 50)%nat ∧ (10 ≤ length c ≤ 200)%nat ∧ (length n ≤ 50)%nat)
  ∧ (length (contribution_errors fields) ≤ 3)%nat
  ∧ (LaParolaTra1E50 ∈ contribution_errors fields ↔
       ∃ w, fields !! "parola" = Some w ∧ strip w ≠ [] ∧ (50 < length w)%nat)
  ∧ (LaFraseIndizioTra10E200 ∈ contribution_errors fields ↔
       ∃ c, fields !! "frase_indizio" = Some c ∧ strip c ≠ []
         ∧ (length c < 10 ∨ 200 < length c)%nat).
Proof.
  unfold contribution_errors. split_and!.
  - split.
    + intros [H1 [H2 H3]%app_eq_nil]%app_eq_nil.
      apply field_errors_nil_iff in H1 as (w & Hw & Hwb & Hwl).
      apply field_errors_nil_iff in H2 as (c & Hc & Hcb & Hcl).
      apply field_errors_nil_iff in H3 as (n & Hn & Hnb & Hnl).
      exists w, c, n. split_and!; try done; lia.
    + intros (w & c & n & Hw & Hc & Hn & Hwb & Hcb & Hnb & Hwl & Hcl & Hnl).
      pose proof (strip_nonempty_length _ Hwb). pose proof (strip_nonempty_length _ Hnb).
      rewrite !(proj2 (field_errors_nil_iff _ _ _ _ _)); [done|..];
        eexists; (split_and!; [eassumption|done|lia|lia]).
  - rewrite !length_app.
    pose proof (field_errors_length LaParolaEObbligatoria LaParolaTra1E50 1 50
                  (fields !! "parola")).
    pose proof (field_errors_length LaFraseIndizioEObbligatoria LaFraseIndizioTra10E200
                  10 200 (fields !! "frase_indizio")).
    pose proof (field_errors_length IlNomeEObbligatorio IlNomeTra1E50 1 50
                  (fields !! "nome")).
    lia.
  - rewrite !elem_of_app, field_errors_too_long_iff by done. split.
    + intros [(w & Hw & Hwb & Hwl)|[[?|?]%field_errors_elem|[?|?]%field_errors_elem]];
        try done.
      pose proof (strip_nonempty_length _ Hwb). exists w. split_and!; [done..|lia].
    + intros (w & Hw & Hwb & Hwl). left. exists w. split_and!; [done..|lia].
  - rewrite !elem_of_app, (field_errors_too_long_iff LaFraseIndizioEObbligatoria) by done.
    split.
    + intros [[?|?]%field_errors_elem|[(c & Hc & Hcb & Hcl)|[?|?]%field_errors_elem]];
        try done.
      exists c. split_and!; [done..|lia].
    + intros (c & Hc & Hcb & Hcl). right. left. exists c. split_and!; [done..|lia].
Qed.

(** ** One row at a time *)

Lemma length_filter_id_le (i : Z) (l : list Row.t) :
  NoDup (Row.id <$> l) →
  (length l ≤ S (length (filter (λ r, Row.id r ≠ i) l)))%nat.
Proof.
  intros Hnd. destruct (decide (i ∈ Row.id <$> l)) as [Hin|Hin].
  - rewrite (length_filter_id i l Hnd Hin). lia.
  - rewrite filter_id_absent by done. lia.
Qed.

Section OneRow.
Context `{!PyStr, !Bleach}.
Variable env : Env.

Lemma handle_length (c : Call) (s : Session) (st : Store) :
  unique_ids st →
  (length (rows st) ≤ S (length (rows (store (handle env c s st))))
   ∧ length (rows (store (handle env c s st))) ≤ S (length (rows st)))%nat.
Proof.
  intros Hnd.
  destruct (handle_store env c s st)
    as [->|[(w & f & n & now & _ & _ & ->)|[i ->]]].
  - lia.
  - cbn [insert rows]. rewrite length_app. cbn [length]. lia.
  - cbn [delete_by_id rows]. split; [by apply length_filter_id_le|].
    pose proof (length_filter (λ r, Row.id r ≠ i) (rows st)). lia.
Qed.

(** X14.  One request, one row at most.  In a table with one row per id,
    as every table made from [init_db] is, a request adds at most one row
    and removes at most one; so after any sequence of requests the table
    has no more rows than requests were made. *)
Theorem one_row_per_request (c : Call) (s : Session) (st : Store) :
  unique_ids st →
  (length (rows st) ≤ S (length (rows (store (handle env c s st))))
   ∧ length (rows (store (handle env c s st))) ≤ S (length (rows st)))%nat
  ∧ ∀ cs, (length (rows (run env cs init_db)) ≤ length cs)%nat.
Proof.
  intros Hnd. split; [by apply handle_length|].
  intros cs.
  assert (Hrun : ∀ st', unique_ids st' →
            (length (rows (run env cs st')) ≤ length (rows st') + length cs)%nat).
  { induction cs as [|[c' s'] cs IH]; intros st' Hst'; cbn [run length]; [lia|].
    pose proof (handle_length c' s' st' Hst') as [_ Hle].
    specialize (IH _ (handle_unique_ids env c' s' st' Hst')). lia. }
  apply (Hrun init_db). apply NoDup_nil_2.
Qed.
End OneRow.

(** GIOIA posted to the empty table: one row more, not two. *)
Lemma one_row_per_request_witness :
  (length (rows (store (@handle latin_pystr tag_stripper no_env
                          (call_index (lit "2024-06-01 10:00:00")
                             (post gioia))
                          contributor init_db))) ≤ 1)%nat.
Proof.
  exact (proj2 (proj1 (@one_row_per_request latin_pystr tag_stripper no_env
                         (call_index (lit "2024-06-01 10:00:00")
                            (post gioia))
                         contributor init_db (NoDup_nil_2 : unique_ids init_db)))).
Defined.

(** ** The further properties on the scenario *)

(** A visitor with neither flag posts GIOIA: the store stays empty. *)
Lemma no_write_without_gate_witness :
  let visitor := {| form_access := false; admin_logged_in := false; permanent := false |} in
  store (@handle latin_pystr tag_stripper no_env
           (call_index (lit "2024-06-01 10:00:00") (post gioia))
           visitor init_db) = init_db.
Proof.
  intros visitor.
  exact (proj2 (proj2 (@no_write_without_gate latin_pystr tag_stripper no_env
                         (call_index (lit "2024-06-01 10:00:00")
                            (post gioia))
                         visitor init_db)) eq_refl eq_refl).
Defined.

(** The login that opens the contributor gate of [no_env] carries the secret. *)
Lemma flag_set_only_by_secret_witness :
  let visitor := {| form_access := false; admin_logged_in := false; permanent := false |} in
  let login := post (<["access_password" := lit "bianca"]> ∅) in
  ∃ now req submitted,
    call_index (lit "2024-06-01 10:00:00") login = call_index now req
    ∧ method req = POST
    ∧ form req !! "access_password" = Some submitted
    ∧ @sanitize_input tag_stripper (Some submitted) = Some (get_form_password no_env).
Proof.
  intros visitor login.
  exact (proj1 (@flag_set_only_by_secret latin_pystr tag_stripper no_env
                  (call_index (lit "2024-06-01 10:00:00") login) visitor init_db)
               eq_refl eq_refl).
Defined.

(** [/logout] clears the contributor flag of the scenario. *)
Lemma gates_are_independent_witness :
  form_access (session (@handle latin_pystr tag_stripper no_env call_form_logout
                          contributor init_db)) = false.
Proof.
  exact (proj1 (proj1 (proj2 (@gates_are_independent latin_pystr tag_stripper no_env
                                call_form_logout contributor init_db)) eq_refl)).
Defined.

(** The ids after GIOIA has been posted to the empty table. *)
Lemma ids_never_reused_witness :
  ids_increasing
    (store (@handle latin_pystr tag_stripper no_env
              (call_index (lit "2024-06-01 10:00:00") (post gioia))
              contributor init_db)).
Proof.
  pose proof (@ids_never_reused latin_pystr tag_stripper no_env) as (Hinit & Hstep & _).
  exact (proj1 (Hstep (call_index (lit "2024-06-01 10:00:00")
                         (post gioia))
                  contributor init_db Hinit)).
Defined.

(** The row GIOIA leaves in the empty table is a checked row. *)
Lemma stored_rows_are_checked_witness :
  Forall row_checked
    (rows (store (@handle latin_pystr tag_stripper no_env
                    (call_index (lit "2024-06-01 10:00:00")
                       (post gioia))
                    contributor init_db))).
Proof.
  exact (proj1 (@stored_rows_are_checked latin_pystr tag_stripper no_env)
           (call_index (lit "2024-06-01 10:00:00") (post gioia))
           contributor init_db (Forall_nil_2 _ : Forall row_checked (rows init_db))).
Defined.
